(** * mapq: the search widget (js/app.js) and the route narrative renderer

    A shallow embedding of [js/app.js].  The script keeps its state in the
    closure variables [errorMsg], [searchInput], [results] and [request];
    they become the fields of [state].  Functions of the script that mutate
    them become computations of a small state-and-exception monad [js]; an
    uncaught [TypeError] keeps the mutations made before it. *)

From stdpp Require Import base option list strings.
From Stdlib Require Import Ascii Lia.

Open Scope string_scope.
Open Scope list_scope.
Open Scope nat_scope.
Open Scope stdpp_scope.
Set Warnings "-register-all".

(** ** The DOM surface used by the script *)

Module Dom.

(** What a click can make the browser do. *)
Inductive browser_effect :=
| PreventDefault
| WindowOpen (url name : string)
| Navigate (url : string).

(** The part of a click event the script reads: [evt.target.href], the
    [href] property of the element clicked. *)
Record click_event := { target_href : string }.

Definition listener := click_event -> list browser_effect.

Inductive tag := P | H2 | A.

(** A text node carries characters and nothing else; only [Element]
    nodes are markup. *)
Inductive node :=
| Text (s : string)
| Element (t : tag) (href : option string) (onclick : list listener)
          (children : list node).

Definition createElement (t : tag) : node := Element t None [] [].

(** [n.textContent = s]: every child is removed and, unless [s] is
    empty, one text node holding [s] is put in their place. *)
Definition text_children (s : string) : list node :=
  if String.eqb s "" then [] else [Text s].

Definition set_textContent (s : string) (n : node) : node :=
  match n with
  | Text _ => Text s
  | Element t h l _ => Element t h l (text_children s)
  end.

(** [n.href = u]; the attribute is kept as assigned (the resolution of a
    relative url against the address of the page is the browser's). *)
Definition set_href (u : string) (n : node) : node :=
  match n with
  | Text s => Text s
  | Element t _ l c => Element t (Some u) l c
  end.

Definition addClickListener (f : listener) (n : node) : node :=
  match n with
  | Text s => Text s
  | Element t h l c => Element t h (l ++ [f]) c
  end.

Definition appendChild (child : node) (n : node) : node :=
  match n with
  | Text s => Text s
  | Element t h l c => Element t h l (c ++ [child])
  end.

(** The [textContent] getter: the characters of all text descendants. *)
Fixpoint textContent (n : node) : string :=
  match n with
  | Text s => s
  | Element _ _ _ c =>
      (fix go (l : list node) : string :=
         match l with
         | [] => ""
         | x :: r => textContent x +:+ go r
         end) c
  end.

(** Number of element nodes in a subtree. *)
Fixpoint elements (n : node) : nat :=
  match n with
  | Text _ => 0
  | Element _ _ _ c =>
      S ((fix go (l : list node) : nat :=
            match l with
            | [] => 0
            | x :: r => elements x + go r
            end) c)
  end.

(** The [href] attribute of a node, as it was assigned. *)
Definition href_of (n : node) : string :=
  match n with
  | Element _ (Some u) _ _ => u
  | _ => ""
  end.

Definition listeners_of (n : node) : list listener :=
  match n with
  | Element _ _ l _ => l
  | Text _ => []
  end.

Definition prevented (e : browser_effect) : bool :=
  match e with PreventDefault => true | _ => false end.

(** The [href] property of a node.  Reading it, the browser resolves the
    attribute against the address of the page and serialises the result
    ([http://x] is read back as [http://x/], a relative url comes back
    absolute); [resolve] is that function of the browser.  Without the
    attribute the property is the empty string. *)
Definition href_property (resolve : string -> string) (n : node) : string :=
  match n with
  | Element _ (Some u) _ _ => resolve u
  | _ => ""
  end.

(** A click on [n]: its listeners run in registration order with
    [evt.target = n]; the default action of a link (navigation of the
    page to its target) follows unless some listener prevented it. *)
Definition click (resolve : string -> string) (n : node)
    : list browser_effect :=
  let evt := {| target_href := href_property resolve n |} in
  let effs := flat_map (fun f : listener => f evt) (listeners_of n) in
  if existsb prevented effs then effs
  else match n with
       | Element A (Some u) _ _ => effs ++ [Navigate (resolve u)]
       | _ => effs
       end.

(** A region of the page: [#error] or [#results]. *)
Record region := { children : list node; hidden : bool }.

Definition region_text (r : region) : string :=
  foldr (fun n acc => textContent n +:+ acc) "" (children r).

Record input := { value : string; placeholder : string }.

End Dom.

Import Dom.

(** ** The search controller *)

(** The body the search API answers with, as the parsed [request.response]
    presents it to the script: [null], or an object whose [documents] is
    missing, [null] or an array of documents with a title and a url.
    Bodies of other shapes (a [documents] that is neither of these, an
    array with an entry that is no such document) are not represented;
    no statement below speaks about them. *)
Record document := { title : string; url : string }.

Inductive js_documents :=
| DocumentsUndefined
| DocumentsNull
| DocumentsArray (l : list document).

Inductive js_response :=
| ResponseNull
| ResponseObject (documents : js_documents).

(** The two named functions the script registers on a request. *)
Inductive handler := OnRequestError | OnRequestLoad.

(** An [XMLHttpRequest] object.  Its last field is a history variable
    that no code reads: the error region and the results region as they
    were at the moment [send()] was called on the object. *)
Record xhr := {
  xhr_mozSystem : bool;
  xhr_open : option (string * string * bool);
  xhr_responseType : string;
  xhr_onerror : list handler;
  xhr_onload : list handler;
  xhr_sent : bool;
  xhr_aborted : bool;
  xhr_done : bool;
  xhr_response : js_response;
  xhr_error : option string;
  xhr_page_at_send : option (region * region)
}.

Definition new_XMLHttpRequest (mozSystem : bool) : xhr :=
  {| xhr_mozSystem := mozSystem; xhr_open := None; xhr_responseType := "";
     xhr_onerror := []; xhr_onload := []; xhr_sent := false;
     xhr_aborted := false; xhr_done := false;
     xhr_response := ResponseNull; xhr_error := None;
     xhr_page_at_send := None |}.

Definition xhr_set_open (m u : string) (async : bool) (x : xhr) : xhr :=
  {| xhr_mozSystem := xhr_mozSystem x; xhr_open := Some (m, u, async);
     xhr_responseType := xhr_responseType x; xhr_onerror := xhr_onerror x;
     xhr_onload := xhr_onload x; xhr_sent := xhr_sent x;
     xhr_aborted := xhr_aborted x; xhr_done := xhr_done x;
     xhr_response := xhr_response x; xhr_error := xhr_error x;
     xhr_page_at_send := xhr_page_at_send x |}.

Definition xhr_set_responseType (t : string) (x : xhr) : xhr :=
  {| xhr_mozSystem := xhr_mozSystem x; xhr_open := xhr_open x;
     xhr_responseType := t; xhr_onerror := xhr_onerror x;
     xhr_onload := xhr_onload x; xhr_sent := xhr_sent x;
     xhr_aborted := xhr_aborted x; xhr_done := xhr_done x;
     xhr_response := xhr_response x; xhr_error := xhr_error x;
     xhr_page_at_send := xhr_page_at_send x |}.

Definition xhr_add_onerror (h : handler) (x : xhr) : xhr :=
  {| xhr_mozSystem := xhr_mozSystem x; xhr_open := xhr_open x;
     xhr_responseType := xhr_responseType x;
     xhr_onerror := xhr_onerror x ++ [h];
     xhr_onload := xhr_onload x; xhr_sent := xhr_sent x;
     xhr_aborted := xhr_aborted x; xhr_done := xhr_done x;
     xhr_response := xhr_response x; xhr_error := xhr_error x;
     xhr_page_at_send := xhr_page_at_send x |}.

Definition xhr_add_onload (h : handler) (x : xhr) : xhr :=
  {| xhr_mozSystem := xhr_mozSystem x; xhr_open := xhr_open x;
     xhr_responseType := xhr_responseType x; xhr_onerror := xhr_onerror x;
     xhr_onload := xhr_onload x ++ [h]; xhr_sent := xhr_sent x;
     xhr_aborted := xhr_aborted x; xhr_done := xhr_done x;
     xhr_response := xhr_response x; xhr_error := xhr_error x;
     xhr_page_at_send := xhr_page_at_send x |}.

(** [send()], called while the page shows [page]. *)
Definition xhr_set_sent (page : region * region) (x : xhr) : xhr :=
  {| xhr_mozSystem := xhr_mozSystem x; xhr_open := xhr_open x;
     xhr_responseType := xhr_responseType x; xhr_onerror := xhr_onerror x;
     xhr_onload := xhr_onload x; xhr_sent := true;
     xhr_aborted := xhr_aborted x; xhr_done := xhr_done x;
     xhr_response := xhr_response x; xhr_error := xhr_error x;
     xhr_page_at_send := Some page |}.

Definition xhr_set_aborted (x : xhr) : xhr :=
  {| xhr_mozSystem := xhr_mozSystem x; xhr_open := xhr_open x;
     xhr_responseType := xhr_responseType x; xhr_onerror := xhr_onerror x;
     xhr_onload := xhr_onload x; xhr_sent := xhr_sent x;
     xhr_aborted := true; xhr_done := xhr_done x;
     xhr_response := xhr_response x; xhr_error := xhr_error x;
     xhr_page_at_send := xhr_page_at_send x |}.

(** The browser completing a request: the parsed body (on load) or the
    error (on failure) is stored in the object before its listeners run. *)
Definition xhr_complete (r : js_response) (e : option string) (x : xhr) : xhr :=
  {| xhr_mozSystem := xhr_mozSystem x; xhr_open := xhr_open x;
     xhr_responseType := xhr_responseType x; xhr_onerror := xhr_onerror x;
     xhr_onload := xhr_onload x; xhr_sent := xhr_sent x;
     xhr_aborted := xhr_aborted x; xhr_done := true;
     xhr_response := r; xhr_error := e;
     xhr_page_at_send := xhr_page_at_send x |}.

(** The closure variables of the [DOMContentLoaded] listener.  [request]
    holds a reference: an index into [xhrs], the store of all request
    objects created so far. *)
Record state := {
  errorMsg : region;
  searchInput : input;
  results : region;
  request : option nat;
  xhrs : list xhr
}.

Definition with_errorMsg (f : region -> region) (s : state) : state :=
  {| errorMsg := f (errorMsg s); searchInput := searchInput s;
     results := results s; request := request s; xhrs := xhrs s |}.

Definition with_results (f : region -> region) (s : state) : state :=
  {| errorMsg := errorMsg s; searchInput := searchInput s;
     results := f (results s); request := request s; xhrs := xhrs s |}.

Definition with_searchInput (f : input -> input) (s : state) : state :=
  {| errorMsg := errorMsg s; searchInput := f (searchInput s);
     results := results s; request := request s; xhrs := xhrs s |}.

Definition with_request (r : option nat) (s : state) : state :=
  {| errorMsg := errorMsg s; searchInput := searchInput s;
     results := results s; request := r; xhrs := xhrs s |}.

Definition with_xhrs (f : list xhr -> list xhr) (s : state) : state :=
  {| errorMsg := errorMsg s; searchInput := searchInput s;
     results := results s; request := request s; xhrs := f (xhrs s) |}.

(** *** The monad of script code *)

Inductive outcome (T : Type) :=
| Returned (a : T) (s : state)
| Threw (s : state).
Arguments Returned {T} a s.
Arguments Threw {T} s.

Definition js (T : Type) := state -> outcome T.

Definition ret {T} (a : T) : js T := fun s => Returned a s.

Definition bind {T U} (m : js T) (k : T -> js U) : js U :=
  fun s => match m s with
           | Returned a s' => k a s'
           | Threw s' => Threw s'
           end.

Definition throw {T} : js T := fun s => Threw s.
Definition read {T} (f : state -> T) : js T := fun s => Returned (f s) s.
Definition modify (f : state -> state) : js unit := fun s => Returned tt (f s).

Declare Scope js_scope.
Delimit Scope js_scope with js.
Notation "'var' x ':=' m ';' k" := (bind m (fun x => k))
  (at level 10, x name, m at level 100, k at level 200) : js_scope.
Notation "m ';;' k" := (bind m (fun _ => k))
  (at level 100, k at level 200, right associativity) : js_scope.

(** The state an invocation leaves behind, returned or thrown. *)
Definition final {T} (o : outcome T) : state :=
  match o with Returned _ s => s | Threw s => s end.

(** JavaScript truthiness of a value that is a string or missing. *)
Definition truthy (v : option string) : bool :=
  match v with
  | Some s => negb (String.eqb s "")
  | None => false
  end.

Definition set_children (s : string) (r : region) : region :=
  {| children := text_children s; hidden := hidden r |}.

Definition set_hidden (b : bool) (r : region) : region :=
  {| children := children r; hidden := b |}.

Definition append_node (n : node) (r : region) : region :=
  {| children := children r ++ [n]; hidden := hidden r |}.

(** A method call or property access on the object [request] refers to;
    on [null] it is a [TypeError]. *)
Definition the_request : js (nat * xhr) :=
  fun s => match request s with
           | None => Threw s
           | Some h => match xhrs s !! h with
                       | Some x => Returned (h, x) s
                       | None => Threw s
                       end
           end.

Definition on_request (f : xhr -> xhr) : js unit :=
  (var hx := the_request;
   modify (with_xhrs (fun l => <[ hx.1 := f hx.2 ]> l)))%js.

(** What the user sees: the error region and the results region. *)
Definition ui (s : state) : region * region := (errorMsg s, results s).

Definition apiURL : string := "https://developer.mozilla.org/search.json?q=".

Section SearchController.

(** [navigator.mozL10n.get]: the localisation library, outside the script. *)
Variable translate : string -> string.

Definition showError (text : string) : js unit :=
  (modify (with_errorMsg (set_children text));;
   modify (with_errorMsg (set_hidden false));;
   modify (with_results (set_hidden true)))%js.

Definition search : js unit :=
  ((* if (request && request.abort) request.abort(); *)
   var r := read request;
   match r with
   | Some h => modify (with_xhrs (fun l => alter xhr_set_aborted h l))
   | None => ret tt
   end;;
   (* results.textContent = translate('searching'); *)
   modify (with_results (set_children (translate "searching")));;
   modify (with_results (set_hidden false));;
   modify (with_errorMsg (set_hidden true));;
   (* var term = searchInput.value;
      if (term.length === 0) term = searchInput.placeholder; *)
   var v := read (fun s => value (searchInput s));
   var term := (if Nat.eqb (String.length v) 0
                then read (fun s => placeholder (searchInput s))
                else ret v);
   let url := apiURL +:+ term in
   (* request = new XMLHttpRequest({ mozSystem: true }); *)
   var h := read (fun s => length (xhrs s));
   modify (with_xhrs (fun l => l ++ [new_XMLHttpRequest true]));;
   modify (with_request (Some h));;
   on_request (xhr_set_open "get" url true);;
   on_request (xhr_set_responseType "json");;
   on_request (xhr_add_onerror OnRequestError);;
   on_request (xhr_add_onload OnRequestLoad);;
   (* request.send(); *)
   var page := read ui;
   on_request (xhr_set_sent page))%js.

(** Both handlers read the closure variable [request], whichever
    request object the event was delivered to. *)
Definition onRequestError : js unit :=
  (var hx := the_request;
   let errorMessage :=
     if truthy (xhr_error hx.2)
     then default "" (xhr_error hx.2)
     else translate "searching_error" in
   showError errorMessage)%js.

(** The click listener every result link gets. *)
Definition open_in_overlay : listener :=
  fun evt => [PreventDefault; WindowOpen (target_href evt) "overlay"].

Definition render_document (doc : document) : js unit :=
  let docLink := createElement A in
  let docLink := set_textContent (title doc) docLink in
  let docLink := set_href (url doc) docLink in
  let docLink := addClickListener open_in_overlay docLink in
  let h2 := createElement H2 in
  let h2 := appendChild docLink h2 in
  modify (with_results (append_node h2)).

Fixpoint forEach {T} (l : list T) (f : T -> js unit) : js unit :=
  match l with
  | [] => ret tt
  | x :: r => (f x;; forEach r f)%js
  end.

Definition onRequestLoad : js unit :=
  (var hx := the_request;
   match xhr_response hx.2 with
   | ResponseNull => showError (translate "searching_error")
   | ResponseObject documents =>
       modify (with_results (set_children ""));;
       match documents with
       | DocumentsUndefined | DocumentsNull =>
           (* documents.length: TypeError *)
           throw
       | DocumentsArray docs =>
           (if Nat.eqb (length docs) 0
            then
              let p := createElement P in
              let p := set_textContent (translate "search_no_results") p in
              modify (with_results (append_node p))
            else forEach docs render_document);;
           modify (with_results (set_hidden false))
       end
   end)%js.

Definition run_handler (h : handler) : js unit :=
  match h with
  | OnRequestError => onRequestError
  | OnRequestLoad => onRequestLoad
  end.

End SearchController.

(** ** The browser around the controller

    The controller runs only when the browser calls it: the form's
    [submit] listener (and, once, the localisation library) calls
    [search]; a request object that completes runs the listeners
    registered on it. *)

Inductive event :=
| UserInput (v : string)
| Submit
| NetLoad (h : nat) (body : js_response)
| NetError (h : nat) (err : option string).

Definition set_value (v : string) (i : input) : input :=
  {| value := v; placeholder := placeholder i |}.

(** Listeners run in registration order; an exception escaping one is
    reported by the browser and the mutations made so far stay. *)
Definition dispatch (translate : string -> string) (hs : list handler)
    (s : state) : state :=
  foldl (fun s h => final (run_handler translate h s)) s hs.

Definition fire_load (translate : string -> string) (h : nat)
    (body : js_response) (s : state) : state :=
  match xhrs s !! h with
  | None => s
  | Some x =>
      dispatch translate (xhr_onload x)
        (with_xhrs (fun l => <[ h := xhr_complete body None x ]> l) s)
  end.

Definition fire_error (translate : string -> string) (h : nat)
    (err : option string) (s : state) : state :=
  match xhrs s !! h with
  | None => s
  | Some x =>
      dispatch translate (xhr_onerror x)
        (with_xhrs (fun l => <[ h := xhr_complete ResponseNull err x ]> l) s)
  end.

(** [fire]: the event reaches the script whatever the condition of the
    request object it belongs to. *)
Definition fire (translate : string -> string) (e : event) (s : state)
    : state :=
  match e with
  | UserInput v => with_searchInput (set_value v) s
  | Submit => final (search translate s)
  | NetLoad h body => fire_load translate h body s
  | NetError h err => fire_error translate h err s
  end.

(** A request object delivers one completion event, and none once
    [abort()] was called on it. *)
Definition pending (x : xhr) : bool :=
  xhr_sent x && negb (xhr_aborted x) && negb (xhr_done x).

Definition deliverable (e : event) (s : state) : bool :=
  match e with
  | UserInput _ | Submit => true
  | NetLoad h _ | NetError h _ =>
      match xhrs s !! h with
      | Some x => pending x
      | None => false
      end
  end.

(** [step]: the event loop of a browser that honours [abort()]. *)
Definition step (translate : string -> string) (e : event) (s : state)
    : state :=
  if deliverable e s then fire translate e s else s.

Definition run (translate : string -> string) (tr : list event)
    (s : state) : state :=
  foldl (fun s e => step translate e s) s tr.

Definition run_unguarded (translate : string -> string) (tr : list event)
    (s : state) : state :=
  foldl (fun s e => fire translate e s) s tr.

(** The page when the script starts: [var request = null]. *)
Definition initial (s : state) : Prop :=
  request s = None /\ xhrs s = [].

(** The three states of the user interface, read off the two regions. *)
Definition searching_ui (translate : string -> string) (s : state) : Prop :=
  children (results s) = text_children (translate "searching")
  /\ region_text (results s) = translate "searching"
  /\ hidden (results s) = false
  /\ hidden (errorMsg s) = true.

Definition error_ui (msg : string) (s : state) : Prop :=
  children (errorMsg s) = text_children msg
  /\ region_text (errorMsg s) = msg
  /\ hidden (errorMsg s) = false
  /\ hidden (results s) = true.

Definition both_visible (s : state) : bool :=
  negb (hidden (errorMsg s)) && negb (hidden (results s)).


(** ** The route narrative renderer *)

Module Narrative.

(** The route data handed over by the map widget. *)
Record Sign := { url : option string }.

Record Maneuver := {
  iconUrl : option string;
  signs : list (option Sign);
  narrative : string
}.

Record Leg := { maneuvers : list Maneuver }.
Record Route := { legs : list Leg }.
Record Data := { route : option Route }.

Inductive result (T : Type) :=
| Done (a : T)
| TypeError
| OutOfFuel.
Arguments Done {T} a.
Arguments TypeError {T}.
Arguments OutOfFuel {T}.

(** [for (; cond(i); i++) body]: the loops of the script all run a
    counter up to a length and accumulate into [html]. *)
Fixpoint for_loop (fuel : nat) (cond : nat -> bool)
    (body : nat -> string -> result string) (i : nat) (html : string)
    : result string :=
  match fuel with
  | 0 => OutOfFuel
  | S fuel' =>
      if cond i then
        match body i html with
        | Done html' => for_loop fuel' cond body (i + 1) html'
        | TypeError => TypeError
        | OutOfFuel => OutOfFuel
        end
      else Done html
  end.

(** The character that delimits the [src] attribute in the two string
    literals of the source, [<img src=] with the character after it and
    the character followed by [>] and two spaces. *)
Definition dquote : string := String "034"%char EmptyString.

Definition sign_truthy (sign : option Sign) : bool :=
  match sign with
  | Some sg => truthy (url sg)
  | None => false
  end.

Definition sign_body (maneuver : Maneuver) (k : nat) (html : string)
    : result string :=
  match signs maneuver !! k with
  | None => Done html
  | Some sign =>
      if sign_truthy sign
      then Done (html +:+ ("<img src=" +:+ dquote
                           +:+ default "" (sign ≫= url)
                           +:+ dquote +:+ ">  "))
      else Done html
  end.

Definition maneuver_body (fuel : nat) (leg : Leg) (j : nat) (html : string)
    : result string :=
  match maneuvers leg !! j with
  | None => TypeError
  | Some maneuver =>
      let html := html +:+ "<tr>" in
      let html := html +:+ "<td>" in
      let html :=
        if truthy (iconUrl maneuver)
        then html +:+ ("<img src=" +:+ dquote
                       +:+ default "" (iconUrl maneuver)
                       +:+ dquote +:+ ">  ")
        else html in
      match for_loop fuel (fun k => k <? length (signs maneuver))
              (sign_body maneuver) 0 html with
      | Done html =>
          let html := html +:+ ("</td><td>" +:+ narrative maneuver +:+ "</td>") in
          Done (html +:+ "</tr>")
      | TypeError => TypeError
      | OutOfFuel => OutOfFuel
      end
  end.

Definition leg_body (fuel : nat) (legs : list Leg) (i : nat) (html : string)
    : result string :=
  match legs !! i with
  | None => TypeError
  | Some leg =>
      for_loop fuel (fun j => j <? length (maneuvers leg))
        (maneuver_body fuel leg) 0 html
  end.

(** The value the function assigns to [innerHTML] of [#narrative], or
    [None] when it assigns nothing. *)
Definition displayNarrative (fuel : nat) (data : Data)
    : result (option string) :=
  match route data with
  | None => Done None
  | Some r =>
      let legs := legs r in
      let html := "" in
      let html := html +:+ "<table><tbody>" in
      match for_loop fuel (fun i => i <? length legs)
              (leg_body fuel legs) 0 html with
      | Done html =>
          let html := html +:+ "</tbody></table>" in
          Done (Some html)
      | TypeError => TypeError
      | OutOfFuel => OutOfFuel
      end
  end.

(** *** The table the specification describes

    One row per maneuver, legs in order and maneuvers in order within a
    leg; a row has the images (icon first, then the signs that have one)
    in its first cell and the narrative text in the second. *)
Record row := { images : list string; text : string }.

(** A url that is there: a string of at least one character. *)
Definition present (v : option string) : list string :=
  match v with
  | Some (String c s) => [String c s]
  | _ => []
  end.

Definition row_of (m : Maneuver) : row :=
  {| images := present (iconUrl m)
               ++ flat_map (fun s => present (s ≫= url)) (signs m);
     text := narrative m |}.

Definition narrative_table (r : Route) : list row :=
  flat_map (fun l => map row_of (maneuvers l)) (legs r).

Definition concat_strings (l : list string) : string :=
  foldr String.append "" l.

(** The markup of one image: an [img] element whose [src] attribute, in
    double quotes, is the url, followed by two spaces. *)
Definition quote_mark : string := String (Ascii.ascii_of_nat 34) EmptyString.

Definition image_tag (src : string) : string :=
  "<img src=" +:+ quote_mark +:+ src +:+ quote_mark +:+ ">  ".

Definition render_row (r : row) : string :=
  "<tr><td>" +:+ concat_strings (map image_tag (images r))
  +:+ "</td><td>" +:+ text r +:+ "</td></tr>".

Definition render_table (t : list row) : string :=
  "<table><tbody>" +:+ concat_strings (map render_row t)
  +:+ "</tbody></table>".

(** Fuel that lets every loop of [displayNarrative] run to its end. *)
Definition enough_fuel (r : Route) : nat :=
  S (length (legs r)
     + list_sum (map (fun l => length (maneuvers l)) (legs r))
     + list_sum (map (fun l =>
         list_sum (map (fun m => length (signs m)) (maneuvers l))) (legs r))).

(** What one turn of each loop adds to [html], and the number of
    maneuvers of a route. *)
Definition add_sign (sign : option Sign) (html : string) : string :=
  if sign_truthy sign
  then html +:+ image_tag (default "" (sign ≫= url))
  else html.

Definition add_maneuver (m : Maneuver) (html : string) : string :=
  html +:+ render_row (row_of m).

Definition add_leg (l : Leg) (html : string) : string :=
  html +:+ concat_strings (map (fun m => render_row (row_of m)) (maneuvers l)).









(** A route of two legs: a maneuver with an icon and two signs, one of
    them without a url; a maneuver with nothing but text; and a second
    leg of one maneuver. *)
Definition sample_route : Route :=
  {| legs :=
       [ {| maneuvers :=
              [ {| iconUrl := Some "icon1.png";
                   signs := [Some {| url := Some "sign1.png" |};
                             Some {| url := None |}; None];
                   narrative := "Start out going north." |};
                {| iconUrl := None; signs := [];
                   narrative := "Turn <left>." |} ] |};
         {| maneuvers :=
              [ {| iconUrl := Some ""; signs := [];
                   narrative := "Arrive." |} ] |} ] |}.

(** The maneuvers of a route in the order the loops visit them. *)
Definition flat_maneuvers (r : Route) : list Maneuver :=
  concat (map maneuvers (legs r)).

(** A route without the entries the loops skip: an icon url that is
    falsy, a sign that is null or has a falsy url. *)
Definition clean_maneuver (m : Maneuver) : Maneuver :=
  {| iconUrl := if truthy (iconUrl m) then iconUrl m else None;
     signs := List.filter sign_truthy (signs m);
     narrative := narrative m |}.

Definition clean_leg (l : Leg) : Leg :=
  {| maneuvers := map clean_maneuver (maneuvers l) |}.

Definition clean_route (r : Route) : Route :=
  {| legs := map clean_leg (legs r) |}.

Definition empty_table : string := "<table><tbody></tbody></table>".

End Narrative.

(** ** What one call of [search] amounts to *)

Definition effective_term (i : input) : string :=
  if Nat.eqb (String.length (value i)) 0 then placeholder i else value i.

(** A request object as [search] leaves it, sent while the page showed
    [page]. *)
Definition sent_request (u : string) (page : region * region) : xhr :=
  {| xhr_mozSystem := true; xhr_open := Some ("get", u, true);
     xhr_responseType := "json"; xhr_onerror := [OnRequestError];
     xhr_onload := [OnRequestLoad]; xhr_sent := true; xhr_aborted := false;
     xhr_done := false; xhr_response := ResponseNull; xhr_error := None;
     xhr_page_at_send := Some page |}.

(** The two regions as the first statements of [search] leave them. *)
Definition searching_page (translate : string -> string) (s : state)
    : region * region :=
  (set_hidden true (errorMsg s),
   {| children := text_children (translate "searching"); hidden := false |}).

(** The request object a call of [search] from [s] has built when it
    returns. *)
Definition new_request (translate : string -> string) (s : state) : xhr :=
  sent_request (apiURL +:+ effective_term (searchInput s))
    (searching_page translate s).

Definition abort_current (s : state) : list xhr :=
  match request s with
  | Some h => alter xhr_set_aborted h (xhrs s)
  | None => xhrs s
  end.

Definition shown_searching (translate : string -> string) (s : state)
    : state :=
  {| errorMsg := set_hidden true (errorMsg s);
     searchInput := searchInput s;
     results := {| children := text_children (translate "searching");
                   hidden := false |};
     request := request s;
     xhrs := abort_current s |}.

Definition after_search (translate : string -> string) (s : state) : state :=
  {| errorMsg := set_hidden true (errorMsg s);
     searchInput := searchInput s;
     results := {| children := text_children (translate "searching");
                   hidden := false |};
     request := Some (length (xhrs s));
     xhrs := abort_current s ++ [new_request translate s] |}.

(** The statements of [search] up to the blank lines before [var term]
    (source lines 42 to 53), and the rest of its body (lines 56 to 76). *)
Definition search_until_term (translate : string -> string) : js unit :=
  (var r := read request;
   match r with
   | Some h => modify (with_xhrs (fun l => alter xhr_set_aborted h l))
   | None => ret tt
   end;;
   modify (with_results (set_children (translate "searching")));;
   modify (with_results (set_hidden false));;
   modify (with_errorMsg (set_hidden true)))%js.

Definition search_from_term : js unit :=
  (var v := read (fun s => value (searchInput s));
   var term := (if Nat.eqb (String.length v) 0
                then read (fun s => placeholder (searchInput s))
                else ret v);
   let url := apiURL +:+ term in
   var h := read (fun s => length (xhrs s));
   modify (with_xhrs (fun l => l ++ [new_XMLHttpRequest true]));;
   modify (with_request (Some h));;
   on_request (xhr_set_open "get" url true);;
   on_request (xhr_set_responseType "json");;
   on_request (xhr_add_onerror OnRequestError);;
   on_request (xhr_add_onload OnRequestLoad);;
   (* request.send(); *)
   var page := read ui;
   on_request (xhr_set_sent page))%js.

(** The heading [onRequestLoad] builds for one document. *)
Definition result_link (doc : document) : node :=
  Element A (Some (url doc)) [open_in_overlay] (text_children (title doc)).

Definition result_heading (doc : document) : node :=
  Element H2 None [] [result_link doc].

Definition append_nodes (l : list node) (r : region) : region :=
  {| children := children r ++ l; hidden := hidden r |}.

(** A page and a localisation to run the controller on. *)
Definition sample_translate (key : string) : string :=
  if String.eqb key "searching" then "Searching..."
  else if String.eqb key "searching_error" then "Error while searching"
  else if String.eqb key "search_no_results" then "No results"
  else key.

Definition sample_page : state :=
  {| errorMsg := {| children := []; hidden := true |};
     searchInput := {| value := ""; placeholder := "javascript" |};
     results := {| children := []; hidden := true |};
     request := None;
     xhrs := [] |}.

Definition sample_documents : js_response :=
  ResponseObject
    (DocumentsArray [ {| title := "<b>Array</b> & more";
                        url := "https://developer.mozilla.org/docs/Array" |} ]).

(** The [href] getter of a browser on the urls of the samples: an
    absolute http or https url that ends with its authority is serialised
    with the path [/]; the other urls of the samples are absolute and in
    serialised form already, and come back as they are. *)
Fixpoint has_path_or_query (s : string) : bool :=
  match s with
  | EmptyString => false
  | String c r =>
      Ascii.eqb c "/" || Ascii.eqb c "?" || Ascii.eqb c "#"
      || has_path_or_query r
  end.

Definition sample_resolve (u : string) : string :=
  let after (n : nat) := String.substring n (String.length u - n) u in
  let authority :=
    if String.prefix "http://" u then Some (after 7)
    else if String.prefix "https://" u then Some (after 8)
    else None in
  match authority with
  | Some a => if has_path_or_query a then u else u +:+ "/"
  | None => u
  end.

(** The response of the specification's own example. *)
Definition example_documents : js_response :=
  ResponseObject (DocumentsArray [ {| title := "A"; url := "http://x" |} ]).

(** Two documents, to tell the links apart. *)
Definition two_documents : js_response :=
  ResponseObject
    (DocumentsArray
       [ {| title := "Array";
            url := "https://developer.mozilla.org/docs/Array" |};
         {| title := "<b>Map</b>"; url := "http://example.org" |} ]).

(** The sample page after one search whose request completed with
    [body]. *)
Definition sample_request : xhr :=
  new_request sample_translate sample_page.

Definition sample_loaded (body : js_response) : state :=
  with_xhrs (fun l => <[ 0 := xhr_complete body None sample_request ]> l)
    (after_search sample_translate sample_page).

Definition sample_failed (err : option string) : state :=
  with_xhrs (fun l => <[ 0 := xhr_complete ResponseNull err sample_request ]> l)
    (after_search sample_translate sample_page).

(** The states the handlers end in. *)
Definition shown_error (text : string) (s : state) : state :=
  {| errorMsg := {| children := text_children text; hidden := false |};
     searchInput := searchInput s;
     results := set_hidden true (results s);
     request := request s;
     xhrs := xhrs s |}.

Definition shown_results (l : list node) (s : state) : state :=
  {| errorMsg := errorMsg s;
     searchInput := searchInput s;
     results := {| children := l; hidden := false |};
     request := request s;
     xhrs := xhrs s |}.

Definition is_text (n : node) : bool :=
  match n with Text _ => true | Element _ _ _ _ => false end.

Definition children_of (n : node) : list node :=
  match n with Text _ => [] | Element _ _ _ c => c end.

(** The events that belong to the completion of request [h]. *)
Definition completion_of (h : nat) (e : event) : Prop :=
  (exists body, e = NetLoad h body) \/ (exists err, e = NetError h err).

(** The invariant of a run: the handle in [request] is valid, every
    request object carries the two listeners [search] registered, every
    request object other than the current one has been aborted, and the
    error region is hidden for as long as the current request is pending.
    [P] stands for a fact about the page the run started from. *)
Record inv (P : Prop) (s : state) : Prop := {
  inv_handle : forall h, request s = Some h -> h < length (xhrs s);
  inv_listeners : forall h x, xhrs s !! h = Some x ->
    xhr_onload x = [OnRequestLoad] /\ xhr_onerror x = [OnRequestError];
  inv_stale : forall h x, xhrs s !! h = Some x -> request s <> Some h ->
    xhr_aborted x = true;
  inv_exclusive : P \/ request s <> None -> both_visible s = false;
  inv_pending : forall h x, request s = Some h -> xhrs s !! h = Some x ->
    pending x = true -> hidden (errorMsg s) = true
}.

(** ** Notions for whole runs of events *)

(** The number of calls of [search] in a sequence of events. *)
Fixpoint count_submits (tr : list event) : nat :=
  match tr with
  | [] => 0
  | Submit :: r => S (count_submits r)
  | _ :: r => count_submits r
  end.

(** The handle of the newest request object, if there is one. *)
Definition newest (l : list xhr) : option nat :=
  match length l with
  | 0 => None
  | S n => Some n
  end.

(** A request object as [search] sets it up (source lines 65 to 76). *)
Definition built_by_search (x : xhr) : Prop :=
  xhr_mozSystem x = true
  /\ (exists term, xhr_open x = Some ("get", apiURL +:+ term, true))
  /\ xhr_responseType x = "json"
  /\ xhr_onerror x = [OnRequestError]
  /\ xhr_onload x = [OnRequestLoad]
  /\ xhr_sent x = true.

(** What holds of [request] and the request objects however the events
    arrive, delivered by the rule of [step] or not. *)
Record wf (s : state) : Prop := {
  wf_newest : request s = newest (xhrs s);
  wf_built : forall h x, xhrs s !! h = Some x -> built_by_search x;
  wf_stale : forall h x, xhrs s !! h = Some x -> request s <> Some h ->
    xhr_aborted x = true
}.

(** The titles of a list of documents, one after the other. *)
Definition titles (docs : list document) : string :=
  foldr (fun d acc => title d +:+ acc) "" docs.

(** The message [onRequestError] shows for a reported error. *)
Definition error_message (translate : string -> string)
    (err : option string) : string :=
  if truthy err then default "" err else translate "searching_error".

(** * Properties *)

(** ** Strings and the monad *)

Lemma append_empty_r (s : string) : s +:+ "" = s.
Proof.
  induction s as [|c s IH]; [reflexivity |].
  change (String c (s +:+ "") = String c s). now rewrite IH.
Qed.

Lemma append_assoc (a b c : string) : (a +:+ b) +:+ c = a +:+ (b +:+ c).
Proof.
  induction a as [|x a IH]; [reflexivity |].
  change (String x ((a +:+ b) +:+ c) = String x (a +:+ (b +:+ c))).
  now rewrite IH.
Qed.

Lemma length_zero_empty (s : string) :
  Nat.eqb (String.length s) 0 = String.eqb s "".
Proof. destruct s; reflexivity. Qed.

Lemma textContent_text_children (t : tag) (h : option string)
    (l : list listener) (s : string) :
  textContent (Element t h l (text_children s)) = s.
Proof.
  unfold text_children. destruct (String.eqb_spec s "") as [-> | _].
  - reflexivity.
  - cbn. apply append_empty_r.
Qed.

Lemma region_text_text_children (s : string) (b : bool) :
  region_text {| children := text_children s; hidden := b |} = s.
Proof.
  unfold region_text, text_children. cbn [children].
  destruct (String.eqb_spec s "") as [-> | _]; [reflexivity |].
  cbn [foldr textContent]. apply append_empty_r.
Qed.

Lemma elements_text_children (t : tag) (h : option string)
    (l : list listener) (s : string) :
  elements (Element t h l (text_children s)) = 1.
Proof. unfold text_children. destruct (String.eqb s ""); reflexivity. Qed.

Lemma on_request_last (f : xhr -> xhr) (s : state) (l : list xhr) (x : xhr) :
  request s = Some (length l) -> xhrs s = l ++ [x] ->
  on_request f s = Returned tt (with_xhrs (fun _ => l ++ [f x]) s).
Proof.
  destruct s as [e i r rq xs]. cbn. intros -> ->.
  unfold on_request, bind, the_request, modify, with_xhrs. cbn.
  rewrite (list_lookup_middle l [] x (length l) eq_refl). cbn.
  rewrite (insert_app_r_alt l [x] (length l)) by lia.
  rewrite Nat.sub_diag. reflexivity.
Qed.

Lemma abort_current_length (s : state) :
  length (abort_current s) = length (xhrs s).
Proof.
  unfold abort_current. destruct (request s); [apply length_alter | done].
Qed.

Section SearchFacts.

Variable translate : string -> string.

Lemma search_until_term_spec (s : state) :
  search_until_term translate s = Returned tt (shown_searching translate s).
Proof.
  unfold search_until_term, shown_searching, abort_current.
  destruct s as [e i r [h|] l]; reflexivity.
Qed.

Lemma search_from_term_spec (s : state) :
  search_from_term s =
  Returned tt
    {| errorMsg := errorMsg s; searchInput := searchInput s;
       results := results s; request := Some (length (xhrs s));
       xhrs := xhrs s
               ++ [sent_request (apiURL +:+ effective_term (searchInput s))
                     (ui s)] |}.
Proof.
  unfold search_from_term, effective_term.
  unfold bind at 1, read at 1. unfold bind at 1.
  destruct (Nat.eqb (String.length (value (searchInput s))) 0);
    [unfold read at 1 | unfold ret at 1].
  all: unfold bind at 1, read at 1; unfold bind at 1, modify at 1;
    unfold bind at 1, modify at 1;
    cbn [with_xhrs with_request errorMsg searchInput results request xhrs].
  all: repeat (unfold bind at 1;
    erewrite on_request_last; [ | reflexivity | reflexivity];
    cbn [with_xhrs errorMsg searchInput results request xhrs]).
  all: unfold bind at 1, read at 1;
    erewrite on_request_last; [ | reflexivity | reflexivity].
  all: reflexivity.
Qed.

Lemma search_splits (s : state) :
  search translate s =
  bind (search_until_term translate) (fun _ => search_from_term) s.
Proof.
  unfold search, search_until_term, search_from_term, bind, read, modify, ret.
  destruct (request s); reflexivity.
Qed.

Lemma search_spec (s : state) :
  search translate s = Returned tt (after_search translate s).
Proof.
  rewrite search_splits. unfold bind.
  rewrite search_until_term_spec, search_from_term_spec.
  unfold after_search, shown_searching. cbn.
  now rewrite abort_current_length.
Qed.

Lemma searching_ui_shown (s : state) :
  searching_ui translate (shown_searching translate s).
Proof.
  split; [reflexivity |]. split; [apply region_text_text_children |].
  split; reflexivity.
Qed.

Lemma searching_ui_after_search (s : state) :
  searching_ui translate (after_search translate s).
Proof.
  split; [reflexivity |]. split; [apply region_text_text_children |].
  split; reflexivity.
Qed.

Lemma error_ui_shown (text : string) (s : state) :
  error_ui text (shown_error text s).
Proof.
  split; [reflexivity |]. split; [apply region_text_text_children |].
  split; reflexivity.
Qed.

End SearchFacts.

(** ** The handlers, case by case *)

Lemma abort_current_lookup (s : state) (h : nat) (x : xhr) :
  abort_current s !! h = Some x ->
  exists x0, xhrs s !! h = Some x0
             /\ xhr_sent x = xhr_sent x0
             /\ xhr_onload x = xhr_onload x0
             /\ xhr_onerror x = xhr_onerror x0
             /\ (xhr_aborted x0 = true -> xhr_aborted x = true)
             /\ (request s = Some h -> xhr_aborted x = true).
Proof.
  unfold abort_current. destruct (request s) as [c|] eqn:Hc.
  - destruct (decide (c = h)) as [-> | Hne].
    + rewrite list_lookup_alter_eq.
      destruct (xhrs s !! h) as [x0|]; [|discriminate].
      cbn. intros [= <-]. exists x0. repeat split; auto.
    + rewrite list_lookup_alter_ne by done. intros Hx. exists x.
      repeat split; auto. intros [= ?]. contradiction.
  - intros Hx. exists x. repeat split; auto. discriminate.
Qed.

Lemma the_request_ok (s : state) (h : nat) (x : xhr) :
  request s = Some h -> xhrs s !! h = Some x ->
  the_request s = Returned (h, x) s.
Proof. intros Hr Hx. unfold the_request. now rewrite Hr, Hx. Qed.

Section HandlerFacts.

Variable translate : string -> string.

Lemma showError_spec (text : string) (s : state) :
  showError text s = Returned tt (shown_error text s).
Proof. reflexivity. Qed.

Lemma forEach_render_document (docs : list document) (s : state) :
  forEach docs render_document s =
  Returned tt (with_results (append_nodes (map result_heading docs)) s).
Proof.
  revert s. induction docs as [|doc docs IH]; intros s.
  - destruct s as [e i [c hd] r l]. unfold with_results, append_nodes. cbn.
    now rewrite app_nil_r.
  - cbn [forEach map]. unfold bind. unfold render_document at 1.
    unfold modify at 1. rewrite IH.
    destruct s as [e i [c hd] r l]. unfold with_results, append_nodes. cbn.
    now rewrite <- app_assoc.
Qed.

Lemma onRequestError_spec (s : state) (h : nat) (x : xhr) :
  request s = Some h -> xhrs s !! h = Some x ->
  onRequestError translate s =
  Returned tt
    (shown_error (if truthy (xhr_error x) then default "" (xhr_error x)
                  else translate "searching_error") s).
Proof.
  intros Hr Hx. unfold onRequestError, bind.
  now rewrite (the_request_ok s h x Hr Hx).
Qed.

Lemma onRequestLoad_null (s : state) (h : nat) (x : xhr) :
  request s = Some h -> xhrs s !! h = Some x ->
  xhr_response x = ResponseNull ->
  onRequestLoad translate s =
  Returned tt (shown_error (translate "searching_error") s).
Proof.
  intros Hr Hx Hn. unfold onRequestLoad, bind.
  rewrite (the_request_ok s h x Hr Hx). cbn [snd]. now rewrite Hn.
Qed.

Lemma onRequestLoad_empty (s : state) (h : nat) (x : xhr) :
  request s = Some h -> xhrs s !! h = Some x ->
  xhr_response x = ResponseObject (DocumentsArray []) ->
  onRequestLoad translate s =
  Returned tt
    (shown_results
       [Element P None [] (text_children (translate "search_no_results"))] s).
Proof.
  intros Hr Hx Hn. unfold onRequestLoad, bind.
  rewrite (the_request_ok s h x Hr Hx). cbn [snd]. now rewrite Hn.
Qed.

Lemma onRequestLoad_documents (s : state) (h : nat) (x : xhr)
    (doc : document) (docs : list document) :
  request s = Some h -> xhrs s !! h = Some x ->
  xhr_response x = ResponseObject (DocumentsArray (doc :: docs)) ->
  onRequestLoad translate s =
  Returned tt (shown_results (map result_heading (doc :: docs)) s).
Proof.
  intros Hr Hx Hn. unfold onRequestLoad, bind.
  rewrite (the_request_ok s h x Hr Hx). cbn [snd]. rewrite Hn.
  unfold modify at 1. cbn [length Nat.eqb].
  rewrite forEach_render_document. reflexivity.
Qed.

Lemma onRequestLoad_no_array (s : state) (h : nat) (x : xhr)
    (d : js_documents) :
  request s = Some h -> xhrs s !! h = Some x ->
  xhr_response x = ResponseObject d ->
  d = DocumentsUndefined \/ d = DocumentsNull ->
  onRequestLoad translate s = Threw (with_results (set_children "") s).
Proof.
  intros Hr Hx Hn Hd. unfold onRequestLoad, bind.
  rewrite (the_request_ok s h x Hr Hx). cbn [snd]. rewrite Hn.
  destruct Hd as [-> | ->]; reflexivity.
Qed.

End HandlerFacts.

(** ** The claims about single invocations *)

Section Invocations.

Variable translate : string -> string.

(** C2: every call of [search] opens its request on the fixed endpoint
    string followed by the effective term, character for character and
    with nothing encoded; the effective term is the value of the search
    field, or the field's placeholder when the value is the empty string.
    The call returns normally and the request it opened is the one it
    sends. *)
Theorem search_url_is_base_plus_term (s : state) :
  let term := if String.eqb (value (searchInput s)) ""
              then placeholder (searchInput s)
              else value (searchInput s) in
  exists s' h x,
    search translate s = Returned tt s'
    /\ request s' = Some h
    /\ xhrs s' !! h = Some x
    /\ xhr_open x
       = Some ("get", "https://developer.mozilla.org/search.json?q=" +:+ term,
               true)
    /\ xhr_sent x = true.
Proof.
  cbn zeta. exists (after_search translate s), (length (xhrs s)).
  eexists. split; [apply search_spec |]. split; [reflexivity |].
  split.
  - cbn [after_search xhrs]. apply list_lookup_middle.
    now rewrite abort_current_length.
  - unfold new_request, sent_request, effective_term.
    cbn [xhr_open xhr_sent]. rewrite length_zero_empty. split; reflexivity.
Qed.

(** C7: every call of [search] has put the page in the Searching state
    by the time it sends its request.  The request object records the
    two regions as they are when [send()] is called on it: at that
    moment the results region holds the localised loading text
    [translate('searching')] and is visible, and the error region is
    hidden.  The request is a new one (its handle was free before the
    call), [search] returns normally, and the page it leaves is the page
    the request was sent from. *)
Theorem search_shows_searching_before_send (s : state) :
  exists s' h x e r,
    search translate s = Returned tt s'
    /\ xhrs s !! h = None
    /\ request s' = Some h
    /\ xhrs s' !! h = Some x
    /\ xhr_sent x = true
    /\ xhr_page_at_send x = Some (e, r)
    /\ children r = text_children (translate "searching")
    /\ region_text r = translate "searching"
    /\ hidden r = false
    /\ hidden e = true
    /\ ui s' = (e, r).
Proof.
  exists (after_search translate s), (length (xhrs s)),
    (new_request translate s), (set_hidden true (errorMsg s)),
    {| children := text_children (translate "searching"); hidden := false |}.
  split; [apply search_spec |].
  split; [now apply lookup_ge_None_2 |].
  split; [reflexivity |].
  split.
  { cbn [after_search xhrs]. apply list_lookup_middle.
    now rewrite abort_current_length. }
  split; [reflexivity |]. split; [reflexivity |]. split; [reflexivity |].
  split; [apply region_text_text_children |].
  repeat split.
Qed.

(** C4: the Error state has two ways in, and both end in the same state
    (error region visible with the message, results region hidden).
    (a) [onRequestError] shows the error the request reports when there
    is one (a non-empty string; an empty one counts as none, as any falsy
    value does) and the generic [translate('searching_error')] otherwise.
    (b) [onRequestLoad] on a null body shows the generic message.
    Nothing else leads there: [onRequestLoad] on a body that is not null
    leaves the error region as it was, and [search] hides it. *)
Theorem error_state_has_two_causes (s : state) (h : nat) (x : xhr) :
  request s = Some h -> xhrs s !! h = Some x ->
  (forall msg, xhr_error x = Some msg -> msg <> "" ->
     exists s', onRequestError translate s = Returned tt s'
                /\ error_ui msg s')
  /\ (truthy (xhr_error x) = false ->
      exists s', onRequestError translate s = Returned tt s'
                 /\ error_ui (translate "searching_error") s')
  /\ (xhr_response x = ResponseNull ->
      exists s', onRequestLoad translate s = Returned tt s'
                 /\ error_ui (translate "searching_error") s')
  /\ (xhr_response x <> ResponseNull ->
      errorMsg (final (onRequestLoad translate s)) = errorMsg s)
  /\ (exists s', search translate s = Returned tt s'
                 /\ hidden (errorMsg s') = true
                 /\ children (errorMsg s') = children (errorMsg s)).
Proof.
  intros Hr Hx. repeat split.
  - intros msg He Hne. eexists. split.
    + apply (onRequestError_spec translate s h x Hr Hx).
    + rewrite He. cbn [truthy default].
      destruct (String.eqb_spec msg "") as [-> | _]; [contradiction |].
      apply error_ui_shown.
  - intros Hf. eexists. split.
    + apply (onRequestError_spec translate s h x Hr Hx).
    + rewrite Hf. apply error_ui_shown.
  - intros Hn. eexists. split.
    + apply (onRequestLoad_null translate s h x Hr Hx Hn).
    + apply error_ui_shown.
  - intros Hn. unfold onRequestLoad, bind.
    rewrite (the_request_ok s h x Hr Hx). cbn [snd].
    destruct (xhr_response x) as [|d]; [contradiction |].
    unfold modify at 1.
    destruct d as [| |docs]; [reflexivity | reflexivity |].
    destruct docs as [|doc docs]; [reflexivity |].
    cbn [length Nat.eqb]. rewrite forEach_render_document. reflexivity.
  - exists (after_search translate s). split; [apply search_spec |].
    split; reflexivity.
Qed.

End Invocations.

Section Rendering.

Variable translate : string -> string.

(** The browser's resolution of an [href], see [Dom.href_property]. *)
Variable resolve : string -> string.

Lemma result_heading_lookup (docs : list document) (i : nat) (doc : document) :
  docs !! i = Some doc ->
  map result_heading docs !! i = Some (Element H2 None [] [result_link doc]).
Proof. intros H. rewrite list_lookup_fmap, H. reflexivity. Qed.

(** C5, as the code has it: on a response whose [documents] list is not
    empty the success handler leaves in the results region, for each
    document and in the order of the list, one heading holding one link;
    the text of the link is the document's title and its [href] is
    assigned the document's url.  A click on any of these links is taken
    over by the listener: the default navigation is prevented and what is
    opened, in the window named [overlay] (the same name for every link),
    is the [href] property of the link, that is the document's url as the
    browser resolves and serialises it; the page does not navigate.  The
    results region is visible afterwards. *)
Theorem load_renders_a_link_per_document (s : state) (h : nat) (x : xhr)
    (docs : list document) :
  request s = Some h -> xhrs s !! h = Some x ->
  xhr_response x = ResponseObject (DocumentsArray docs) ->
  docs <> [] ->
  exists s',
    onRequestLoad translate s = Returned tt s'
    /\ length (children (results s')) = length docs
    /\ (forall i doc, docs !! i = Some doc ->
          exists link,
            children (results s') !! i = Some (Element H2 None [] [link])
            /\ textContent link = title doc
            /\ href_of link = url doc
            /\ href_property resolve link = resolve (url doc)
            /\ click resolve link
               = [PreventDefault; WindowOpen (resolve (url doc)) "overlay"])
    /\ hidden (results s') = false.
Proof.
  intros Hr Hx Hresp Hne. destruct docs as [|d docs]; [contradiction |].
  eexists. split.
  { apply (onRequestLoad_documents translate s h x d docs Hr Hx Hresp). }
  cbn [shown_results results children hidden]. split.
  { now rewrite length_map. }
  split; [| reflexivity].
  intros i doc Hi. exists (result_link doc). split.
  { now apply result_heading_lookup. }
  split; [apply textContent_text_children |].
  repeat split.
Qed.

(** C6: on the response [{documents: []}] the success handler leaves in
    the results region exactly one element, a paragraph whose text is
    [translate('search_no_results')], whatever the region held before
    (it is emptied first), and the region is visible; the error region is
    not touched. *)
Theorem load_empty_list_shows_no_results (s : state) (h : nat) (x : xhr) :
  request s = Some h -> xhrs s !! h = Some x ->
  xhr_response x = ResponseObject (DocumentsArray []) ->
  exists s' p,
    onRequestLoad translate s = Returned tt s'
    /\ onRequestLoad translate s
       = bind (modify (with_results (set_children "")))
           (fun _ => bind (modify (with_results (append_node p)))
              (fun _ => modify (with_results (set_hidden false)))) s
    /\ children (results s') = [p]
    /\ p = Element P None [] (text_children (translate "search_no_results"))
    /\ textContent p = translate "search_no_results"
    /\ hidden (results s') = false
    /\ errorMsg s' = errorMsg s.
Proof.
  intros Hr Hx Hresp.
  eexists. exists (Element P None []
                     (text_children (translate "search_no_results"))).
  split.
  { apply (onRequestLoad_empty translate s h x Hr Hx Hresp). }
  split.
  { rewrite (onRequestLoad_empty translate s h x Hr Hx Hresp). reflexivity. }
  split; [reflexivity |]. split; [reflexivity |].
  split; [apply textContent_text_children |].
  split; reflexivity.
Qed.

(** C9: the success handler tests the response against [null] and
    nothing else.  On a response that is an object without a [documents]
    array ([documents] missing or null) it throws at [documents.length],
    after the results region has been emptied: the exception leaves the
    region empty with its visibility unchanged, and the error region is
    exactly as it was, so no error is shown. *)
Theorem load_without_documents_throws (s : state) (h : nat) (x : xhr)
    (d : js_documents) :
  request s = Some h -> xhrs s !! h = Some x ->
  xhr_response x = ResponseObject d ->
  d = DocumentsUndefined \/ d = DocumentsNull ->
  exists s',
    onRequestLoad translate s = Threw s'
    /\ children (results s') = []
    /\ hidden (results s') = hidden (results s)
    /\ errorMsg s' = errorMsg s.
Proof.
  intros Hr Hx Hresp Hd. eexists. split.
  { apply (onRequestLoad_no_array translate s h x d Hr Hx Hresp Hd). }
  repeat split.
Qed.

(** C10: the title of every rendered document reaches the page as text.
    The link of a document has only text nodes below it, its text is the
    title character for character, and it contains no element: whatever
    characters the title holds, none of them becomes markup. *)
Theorem title_is_text_not_markup (s : state) (h : nat) (x : xhr)
    (docs : list document) :
  request s = Some h -> xhrs s !! h = Some x ->
  xhr_response x = ResponseObject (DocumentsArray docs) ->
  forall i doc, docs !! i = Some doc ->
    exists link,
      children (results (final (onRequestLoad translate s))) !! i
      = Some (Element H2 None [] [link])
      /\ textContent link = title doc
      /\ forallb is_text (children_of link) = true
      /\ elements link = 1.
Proof.
  intros Hr Hx Hresp i doc Hi. destruct docs as [|d docs]; [discriminate |].
  rewrite (onRequestLoad_documents translate s h x d docs Hr Hx Hresp).
  cbn [final shown_results results children].
  exists (result_link doc). split.
  { now apply result_heading_lookup. }
  split; [apply textContent_text_children |].
  split; [| apply elements_text_children].
  unfold result_link, text_children. cbn [children_of].
  destruct (String.eqb (title doc) ""); reflexivity.
Qed.

End Rendering.

(** ** Runs of the controller in the browser *)

Section Runs.

Variable translate : string -> string.

Lemma run_app (tr1 tr2 : list event) (s : state) :
  run translate (tr1 ++ tr2) s = run translate tr2 (run translate tr1 s).
Proof. apply foldl_app. Qed.

Lemma run_snoc (tr : list event) (e : event) (s : state) :
  run translate (tr ++ [e]) s = step translate e (run translate tr s).
Proof. now rewrite run_app. Qed.

Lemma final_search (s : state) :
  final (search translate s) = after_search translate s.
Proof. now rewrite search_spec. Qed.

Lemma onRequestLoad_frame (s : state) (h : nat) (x : xhr) :
  request s = Some h -> xhrs s !! h = Some x ->
  let s' := final (onRequestLoad translate s) in
  request s' = request s /\ xhrs s' = xhrs s
  /\ (hidden (errorMsg s) = true -> both_visible s' = false).
Proof.
  intros Hr Hx. cbn zeta.
  destruct (xhr_response x) as [|[| |[|d docs]]] eqn:Hresp.
  - now rewrite (onRequestLoad_null translate s h x Hr Hx Hresp).
  - rewrite (onRequestLoad_no_array translate s h x _ Hr Hx Hresp)
      by (left; reflexivity).
    repeat split. unfold both_visible. cbn. now intros ->.
  - rewrite (onRequestLoad_no_array translate s h x _ Hr Hx Hresp)
      by (right; reflexivity).
    repeat split. unfold both_visible. cbn. now intros ->.
  - rewrite (onRequestLoad_empty translate s h x Hr Hx Hresp).
    repeat split. unfold both_visible. cbn. now intros ->.
  - rewrite (onRequestLoad_documents translate s h x d docs Hr Hx Hresp).
    repeat split. unfold both_visible. cbn. now intros ->.
Qed.

Lemma onRequestError_frame (s : state) (h : nat) (x : xhr) :
  request s = Some h -> xhrs s !! h = Some x ->
  let s' := final (onRequestError translate s) in
  request s' = request s /\ xhrs s' = xhrs s /\ both_visible s' = false.
Proof.
  intros Hr Hx. cbn zeta.
  now rewrite (onRequestError_spec translate s h x Hr Hx).
Qed.

(** A handler changes neither [request] nor the request objects. *)
Lemma run_handler_frame (hd : handler) (s : state) :
  request (final (run_handler translate hd s)) = request s
  /\ xhrs (final (run_handler translate hd s)) = xhrs s.
Proof.
  destruct (request s) as [h|] eqn:Hr.
  - destruct (xhrs s !! h) as [x|] eqn:Hx.
    + destruct hd; cbn [run_handler].
      * destruct (onRequestError_frame s h x Hr Hx) as (H1 & H2 & _).
        split; congruence.
      * destruct (onRequestLoad_frame s h x Hr Hx) as (H1 & H2 & _).
        split; congruence.
    + destruct hd; cbn [run_handler];
        unfold onRequestError, onRequestLoad, bind, the_request;
        rewrite Hr, Hx; cbn; now rewrite Hr.
  - destruct hd; cbn [run_handler];
      unfold onRequestError, onRequestLoad, bind, the_request;
      rewrite Hr; cbn; now rewrite Hr.
Qed.

Lemma dispatch_frame (hs : list handler) (s : state) :
  request (dispatch translate hs s) = request s
  /\ xhrs (dispatch translate hs s) = xhrs s.
Proof.
  revert s. induction hs as [|hd hs IH]; intros s; [now split |].
  change (dispatch translate (hd :: hs) s)
    with (dispatch translate hs (final (run_handler translate hd s))).
  destruct (IH (final (run_handler translate hd s))) as [H1 H2].
  destruct (run_handler_frame hd s) as [H3 H4].
  split; congruence.
Qed.

Lemma abort_current_keeps (s : state) (h : nat) (x : xhr) :
  xhrs s !! h = Some x ->
  exists x', abort_current s !! h = Some x'
             /\ (xhr_aborted x = true -> xhr_aborted x' = true).
Proof.
  intros Hx. unfold abort_current. destruct (request s) as [c|].
  - destruct (decide (c = h)) as [-> | Hne].
    + rewrite list_lookup_alter_eq, Hx. cbn. eauto.
    + rewrite list_lookup_alter_ne by done. eauto.
  - eauto.
Qed.

Lemma fire_load_frame (s : state) (h : nat) (x : xhr) (body : js_response) :
  xhrs s !! h = Some x ->
  request (fire_load translate h body s) = request s
  /\ xhrs (fire_load translate h body s)
     = <[ h := xhr_complete body None x ]> (xhrs s).
Proof.
  intros Hx. unfold fire_load. rewrite Hx.
  destruct (dispatch_frame (xhr_onload x)
    (with_xhrs (fun l => <[ h := xhr_complete body None x ]> l) s))
    as [H1 H2].
  split; [exact H1 | exact H2].
Qed.

Lemma fire_error_frame (s : state) (h : nat) (x : xhr) (err : option string) :
  xhrs s !! h = Some x ->
  request (fire_error translate h err s) = request s
  /\ xhrs (fire_error translate h err s)
     = <[ h := xhr_complete ResponseNull err x ]> (xhrs s).
Proof.
  intros Hx. unfold fire_error. rewrite Hx.
  destruct (dispatch_frame (xhr_onerror x)
    (with_xhrs (fun l => <[ h := xhr_complete ResponseNull err x ]> l) s))
    as [H1 H2].
  split; [exact H1 | exact H2].
Qed.

Lemma pending_not_aborted (x : xhr) :
  pending x = true -> xhr_aborted x = true -> False.
Proof.
  unfold pending. intros Hp Ha. rewrite Ha in Hp.
  destruct (xhr_sent x); discriminate.
Qed.

(** Once aborted, a request object stays aborted. *)
Lemma step_keeps_aborted (e : event) (s : state) (h : nat) (x : xhr) :
  xhrs s !! h = Some x -> xhr_aborted x = true ->
  exists x', xhrs (step translate e s) !! h = Some x'
             /\ xhr_aborted x' = true.
Proof.
  intros Hx Ha. unfold step.
  destruct e as [v| |h' body|h' err]; cbn [deliverable fire].
  - exists x. now split.
  - rewrite final_search. cbn [after_search xhrs].
    destruct (abort_current_keeps s h x Hx) as (x' & Hx' & Himp).
    exists x'. split; [| auto]. now apply lookup_app_l_Some.
  - destruct (xhrs s !! h') as [y|] eqn:Hy; [| eauto].
    destruct (pending y) eqn:Hp; [| eauto].
    destruct (fire_load_frame s h' y body Hy) as [_ ->].
    destruct (decide (h' = h)) as [-> | Hne].
    + exfalso. assert (y = x) as -> by congruence.
      exact (pending_not_aborted x Hp Ha).
    + exists x. split; [| assumption]. now rewrite list_lookup_insert_ne.
  - destruct (xhrs s !! h') as [y|] eqn:Hy; [| eauto].
    destruct (pending y) eqn:Hp; [| eauto].
    destruct (fire_error_frame s h' y err Hy) as [_ ->].
    destruct (decide (h' = h)) as [-> | Hne].
    + exfalso. assert (y = x) as -> by congruence.
      exact (pending_not_aborted x Hp Ha).
    + exists x. split; [| assumption]. now rewrite list_lookup_insert_ne.
Qed.

Lemma run_keeps_aborted (tr : list event) (s : state) (h : nat) (x : xhr) :
  xhrs s !! h = Some x -> xhr_aborted x = true ->
  exists x', xhrs (run translate tr s) !! h = Some x'
             /\ xhr_aborted x' = true.
Proof.
  revert s x. induction tr as [|e tr IH]; intros s x Hx Ha; [eauto |].
  change (run translate (e :: tr) s)
    with (run translate tr (step translate e s)).
  destruct (step_keeps_aborted e s h x Hx Ha) as (x' & Hx' & Ha').
  exact (IH _ x' Hx' Ha').
Qed.

(** An aborted request object delivers nothing. *)
Lemma aborted_not_delivered (e : event) (s : state) (h : nat) (x : xhr) :
  xhrs s !! h = Some x -> xhr_aborted x = true -> completion_of h e ->
  step translate e s = s.
Proof.
  intros Hx Ha [[body ->] | [err ->]]; unfold step; cbn [deliverable];
    rewrite Hx; destruct (pending x) eqn:Hp; try reflexivity;
    destruct (pending_not_aborted x Hp Ha).
Qed.

Lemma inv_initial (P : Prop) (s : state) :
  initial s -> (P -> both_visible s = false) -> inv P s.
Proof.
  intros [Hr Hx] HP. split.
  - intros h Hh. congruence.
  - intros h x Hh. rewrite Hx in Hh. discriminate.
  - intros h x Hh. rewrite Hx in Hh. discriminate.
  - intros [HP' | Hn]; [auto | congruence].
  - intros h x Hh. congruence.
Qed.

Lemma inv_search (P : Prop) (s : state) :
  inv P s -> inv P (after_search translate s).
Proof.
  intros I. split; cbn [after_search request xhrs errorMsg].
  - intros h [= <-]. rewrite length_app, abort_current_length. cbn. lia.
  - intros h x Hx. apply lookup_app_Some in Hx as [Hx | [_ Hx]].
    + destruct (abort_current_lookup s h x Hx) as (x0 & H0 & _ & Hl & He & _).
      destruct (inv_listeners P s I h x0 H0) as [H1 H2].
      split; congruence.
    + apply list_lookup_singleton_Some in Hx as [_ <-]. now split.
  - intros h x Hx Hne. apply lookup_app_Some in Hx as [Hx | [Hge Hx]].
    + destruct (abort_current_lookup s h x Hx)
        as (x0 & H0 & _ & _ & _ & Hkeep & Hcur).
      destruct (decide (request s = Some h)) as [Hc | Hc]; [auto |].
      apply Hkeep. exact (inv_stale P s I h x0 H0 Hc).
    + apply list_lookup_singleton_Some in Hx as [Hz _].
      rewrite abort_current_length in Hge, Hz.
      exfalso. apply Hne. f_equal. lia.
  - intros _. reflexivity.
  - intros h x _ _ _. reflexivity.
Qed.

(** The current request completes and a handler has run on the result. *)
Lemma inv_completed (P : Prop) (s s' : state) (h : nat) (x y : xhr) :
  inv P s -> request s = Some h -> xhrs s !! h = Some x ->
  xhr_onload y = xhr_onload x -> xhr_onerror y = xhr_onerror x ->
  xhr_done y = true ->
  request s' = request s -> xhrs s' = <[ h := y ]> (xhrs s) ->
  both_visible s' = false ->
  inv P s'.
Proof.
  intros I Hr Hx Hl He Hd Hr' Hx' Hv. split.
  - intros c Hc. rewrite Hx', length_insert. apply (inv_handle P s I).
    congruence.
  - intros c z Hz. rewrite Hx' in Hz.
    destruct (decide (h = c)) as [<- | Hne].
    + rewrite list_lookup_insert_eq in Hz by (now apply lookup_lt_Some in Hx).
      injection Hz as <-. rewrite Hl, He.
      exact (inv_listeners P s I h x Hx).
    + rewrite list_lookup_insert_ne in Hz by done.
      exact (inv_listeners P s I c z Hz).
  - intros c z Hz Hne. rewrite Hx' in Hz. rewrite Hr' in Hne.
    destruct (decide (h = c)) as [<- | Hne'].
    + contradiction.
    + rewrite list_lookup_insert_ne in Hz by done.
      exact (inv_stale P s I c z Hz Hne).
  - intros _. exact Hv.
  - intros c z Hc Hz Hp. rewrite Hr', Hr in Hc. injection Hc as <-.
    rewrite Hx' in Hz.
    rewrite list_lookup_insert_eq in Hz by (now apply lookup_lt_Some in Hx).
    injection Hz as <-. unfold pending in Hp. rewrite Hd in Hp.
    destruct (xhr_sent y), (xhr_aborted y); discriminate.
Qed.

(** A pending request object is the current one. *)
Lemma pending_is_current (P : Prop) (s : state) (h : nat) (x : xhr) :
  inv P s -> xhrs s !! h = Some x -> pending x = true ->
  request s = Some h.
Proof.
  intros I Hx Hp. destruct (decide (request s = Some h)) as [Hc | Hc]; [done |].
  destruct (pending_not_aborted x Hp (inv_stale P s I h x Hx Hc)).
Qed.

Lemma inv_step (P : Prop) (e : event) (s : state) :
  inv P s -> inv P (step translate e s).
Proof.
  intros I. unfold step.
  destruct e as [v| |h body|h err]; cbn [deliverable fire].
  - destruct I as [I1 I2 I3 I4 I5]. split; assumption.
  - rewrite final_search. now apply inv_search.
  - destruct (xhrs s !! h) as [x|] eqn:Hx; [| exact I].
    destruct (pending x) eqn:Hp; [| exact I].
    pose proof (pending_is_current P s h x I Hx Hp) as Hr.
    destruct (fire_load_frame s h x body Hx) as [Hr' Hx'].
    apply (inv_completed P s _ h x (xhr_complete body None x) I Hr Hx);
      try reflexivity; try assumption.
    unfold fire_load. rewrite Hx.
    destruct (inv_listeners P s I h x Hx) as [-> _].
    cbn [dispatch foldl run_handler].
    eapply onRequestLoad_frame.
    + exact Hr.
    + cbn [with_xhrs xhrs]. apply list_lookup_insert_eq.
      now apply lookup_lt_Some in Hx.
    + exact (inv_pending P s I h x Hr Hx Hp).
  - destruct (xhrs s !! h) as [x|] eqn:Hx; [| exact I].
    destruct (pending x) eqn:Hp; [| exact I].
    pose proof (pending_is_current P s h x I Hx Hp) as Hr.
    destruct (fire_error_frame s h x err Hx) as [Hr' Hx'].
    apply (inv_completed P s _ h x (xhr_complete ResponseNull err x) I Hr Hx);
      try reflexivity; try assumption.
    unfold fire_error. rewrite Hx.
    destruct (inv_listeners P s I h x Hx) as [_ ->].
    cbn [dispatch foldl run_handler].
    eapply onRequestError_frame.
    + exact Hr.
    + cbn [with_xhrs xhrs]. apply list_lookup_insert_eq.
      now apply lookup_lt_Some in Hx.
Qed.

Lemma inv_run (P : Prop) (tr : list event) (s : state) :
  inv P s -> inv P (run translate tr s).
Proof.
  revert s. induction tr as [|e tr IH]; intros s I; [exact I |].
  change (run translate (e :: tr) s)
    with (run translate tr (step translate e s)).
  apply IH. now apply inv_step.
Qed.

Lemma step_keeps_request (e : event) (s : state) :
  request s <> None -> request (step translate e s) <> None.
Proof.
  intros Hn. unfold step.
  destruct e as [v| |h body|h err]; cbn [deliverable fire].
  - exact Hn.
  - now rewrite final_search.
  - destruct (xhrs s !! h) as [x|] eqn:Hx; [| exact Hn].
    destruct (pending x); [| exact Hn].
    now destruct (fire_load_frame s h x body Hx) as [-> _].
  - destruct (xhrs s !! h) as [x|] eqn:Hx; [| exact Hn].
    destruct (pending x); [| exact Hn].
    now destruct (fire_error_frame s h x err Hx) as [-> _].
Qed.

Lemma run_keeps_request (tr : list event) (s : state) :
  request s <> None -> request (run translate tr s) <> None.
Proof.
  revert s. induction tr as [|e tr IH]; intros s Hn; [exact Hn |].
  change (run translate (e :: tr) s)
    with (run translate tr (step translate e s)).
  apply IH. now apply step_keeps_request.
Qed.

Lemma submitted_has_request (tr : list event) (s : state) :
  In Submit tr -> request (run translate tr s) <> None.
Proof.
  intros Hin. apply in_split in Hin as (tr1 & tr2 & ->).
  rewrite run_app.
  change (run translate (Submit :: tr2) (run translate tr1 s))
    with (run translate tr2 (step translate Submit (run translate tr1 s))).
  apply run_keeps_request. unfold step. cbn [deliverable fire].
  now rewrite final_search.
Qed.

End Runs.

Section Supersession.

Variable translate : string -> string.

(** C1, as the code has it: a call of [search] made while an earlier
    request is the current one calls [abort()] on that request and makes
    its own request the current one.  Neither handler checks which request
    completed, so the state of the second search is safe only because an
    aborted request delivers no completion: in a browser that honours
    [abort()], at whatever later point a completion of the first request
    arrives, it is dropped and the state (the page included) stays as it
    is. *)
Theorem superseded_request_is_aborted (s : state) (h : nat) (x : xhr) :
  request s = Some h -> xhrs s !! h = Some x ->
  let s2 := final (search translate s) in
  request s2 = Some (length (xhrs s))
  /\ request s2 <> Some h
  /\ (exists x', xhrs s2 !! h = Some x' /\ xhr_aborted x' = true)
  /\ (forall tr e, completion_of h e ->
        step translate e (run translate tr s2) = run translate tr s2).
Proof.
  intros Hr Hx. cbn zeta. rewrite final_search.
  assert (Hab : exists x', xhrs (after_search translate s) !! h = Some x'
                           /\ xhr_aborted x' = true).
  { cbn [after_search xhrs]. unfold abort_current. rewrite Hr.
    exists (xhr_set_aborted x). split; [| reflexivity].
    apply lookup_app_l_Some. now rewrite list_lookup_alter_eq, Hx. }
  split; [reflexivity |]. split.
  { cbn [after_search request]. intros [= He].
    apply lookup_lt_Some in Hx. lia. }
  split; [exact Hab |].
  intros tr e He. destruct Hab as (x' & Hx' & Ha').
  destruct (run_keeps_aborted translate tr _ h x' Hx' Ha') as (x'' & Hx'' & Ha'').
  exact (aborted_not_delivered translate e _ h x'' Hx'' Ha'' He).
Qed.

(** C8, as the code has it: in a browser that delivers a completion only
    to a request that was sent, is not aborted and has not completed yet,
    the error region and the results region are never both visible once
    [search] has run, and never at all on a page that does not start with
    both visible.  [search] hides the error region and shows the results
    region, [showError] shows the error region and hides the results
    region; the success path of [onRequestLoad] shows the results region
    and relies on [search] having hidden the error region. *)
Theorem regions_never_both_visible (tr : list event) (s0 : state) :
  initial s0 ->
  In Submit tr \/ both_visible s0 = false ->
  both_visible (run translate tr s0) = false.
Proof.
  intros Hinit Hor.
  assert (I : inv (both_visible s0 = false) (run translate tr s0)).
  { apply inv_run. now apply inv_initial. }
  apply (inv_exclusive _ _ I).
  destruct Hor as [Hin | Hv]; [right | now left].
  now apply submitted_has_request.
Qed.

End Supersession.

(** ** The controller on a sample page *)

(** C1, as stated, fails: after two calls of [search] the page shows
    Searching for the second request; [onRequestLoad] run for the
    completion of the first request reads the second, current request,
    finds no response yet and puts the page in the Error state. *)
Lemma stale_load_overwrites_second_search :
  let s2 := run_unguarded sample_translate [Submit; Submit] sample_page in
  let s3 := fire sample_translate (NetLoad 0 sample_documents) s2 in
  request s2 = Some 1
  /\ (xhr_aborted <$> xhrs s2 !! 0) = Some true
  /\ searching_ui sample_translate s2
  /\ error_ui "Error while searching" s3
  /\ ui s3 <> ui s2.
Proof.
  cbn zeta. split; [reflexivity |]. split; [reflexivity |].
  split; [repeat split |]. split; [repeat split |].
  intros H. apply (f_equal (fun u => hidden (fst u))) in H.
  vm_compute in H. discriminate.
Qed.

(** C5, as stated, fails on the example of the specification: for the
    document with url [http://x] the link's [href] is assigned that
    string, and the click opens [http://x/], the [href] property as the
    browser serialises it, not the url of the document. *)
Lemma click_opens_the_resolved_href :
  let s' := final (onRequestLoad sample_translate
                     (sample_loaded example_documents)) in
  exists link,
    children (results s') = [Element H2 None [] [link]]
    /\ textContent link = "A"
    /\ href_of link = "http://x"
    /\ click sample_resolve link
       = [PreventDefault; WindowOpen "http://x/" "overlay"]
    /\ click sample_resolve link
       <> [PreventDefault; WindowOpen "http://x" "overlay"].
Proof.
  cbn zeta. eexists. split; [reflexivity |].
  split; [reflexivity |]. split; [reflexivity |]. split; [reflexivity |].
  vm_compute. discriminate.
Qed.

(** C8, as stated, fails: [search], then [onRequestError], then
    [onRequestLoad] on a body with documents leaves both regions
    visible. *)
Lemma error_then_load_shows_both_regions :
  both_visible
    (run_unguarded sample_translate
       [Submit; NetError 0 None; NetLoad 0 sample_documents] sample_page)
  = true.
Proof. reflexivity. Qed.

(** ** The route narrative *)

Module NarrativeFacts.

Import Narrative.

Lemma for_loop_over_list {T} (l : list T) (f : T -> string -> string)
    (body : nat -> string -> result string) :
  (forall i x html, l !! i = Some x -> body i html = Done (f x html)) ->
  forall fuel i html, length l - i < fuel ->
    for_loop fuel (fun i => i <? length l) body i html
    = Done (foldl (fun acc x => f x acc) html (drop i l)).
Proof.
  intros Hbody. induction fuel as [|fuel IH]; intros i html Hf; [lia |].
  cbn [for_loop]. destruct (Nat.ltb_spec i (length l)) as [Hlt | Hge].
  - destruct (lookup_lt_is_Some_2 l i Hlt) as [x Hx].
    rewrite (Hbody i x html Hx), IH by lia.
    rewrite (drop_S l x i Hx). cbn [foldl].
    now replace (i + 1) with (S i) by lia.
  - now rewrite drop_ge by lia.
Qed.

Lemma concat_strings_app (a b : list string) :
  concat_strings (a ++ b) = concat_strings a +:+ concat_strings b.
Proof.
  induction a as [|x a IH]; [reflexivity |].
  cbn [app concat_strings foldr]. fold (concat_strings (a ++ b)).
  fold (concat_strings a). now rewrite IH, append_assoc.
Qed.

(** The two literals of the source around a url give the markup of an
    image. *)
Lemma image_literal (src : string) :
  "<img src=" +:+ dquote +:+ src +:+ dquote +:+ ">  " = image_tag src.
Proof. reflexivity. Qed.

Lemma present_truthy (v : option string) :
  present v = if truthy v then [default "" v] else [].
Proof. destruct v as [[|c s]|]; reflexivity. Qed.

Lemma fold_add_sign (l : list (option Sign)) (html : string) :
  foldl (fun acc x => add_sign x acc) html l
  = html +:+ concat_strings
               (map image_tag (flat_map (fun s => present (s ≫= url)) l)).
Proof.
  revert html. induction l as [|sg l IH]; intros html.
  - cbn. now rewrite append_empty_r.
  - cbn [foldl flat_map]. rewrite IH, map_app, concat_strings_app.
    rewrite present_truthy. unfold add_sign, sign_truthy.
    destruct sg as [sg|]; cbn [mbind option_bind truthy].
    + destruct (truthy (url sg)); cbn [map concat_strings foldr].
      * now rewrite append_empty_r, append_assoc.
      * reflexivity.
    + reflexivity.
Qed.

Lemma fold_add_maneuver (l : list Maneuver) (html : string) :
  foldl (fun acc x => add_maneuver x acc) html l
  = html +:+ concat_strings (map (fun m => render_row (row_of m)) l).
Proof.
  revert html. induction l as [|m l IH]; intros html.
  - cbn. now rewrite append_empty_r.
  - cbn [foldl map concat_strings foldr]. rewrite IH. unfold add_maneuver.
    now rewrite append_assoc.
Qed.

Lemma fold_add_leg (l : list Leg) (html : string) :
  foldl (fun acc x => add_leg x acc) html l
  = html +:+ concat_strings
               (map render_row (flat_map (fun g => map row_of (maneuvers g)) l)).
Proof.
  revert html. induction l as [|g l IH]; intros html.
  - cbn. now rewrite append_empty_r.
  - cbn [foldl flat_map]. rewrite IH, map_app, concat_strings_app.
    unfold add_leg. now rewrite append_assoc, map_map.
Qed.

Lemma maneuver_body_spec (fuel : nat) (leg : Leg) (j : nat) (m : Maneuver)
    (html : string) :
  maneuvers leg !! j = Some m -> length (signs m) < fuel ->
  maneuver_body fuel leg j html = Done (add_maneuver m html).
Proof.
  intros Hm Hf. unfold maneuver_body. rewrite Hm. cbn zeta.
  rewrite (for_loop_over_list (signs m) add_sign).
  2:{ intros k sg h Hk. unfold sign_body, add_sign. rewrite Hk.
      now destruct (sign_truthy sg). }
  2:{ lia. }
  rewrite drop_0, fold_add_sign. f_equal.
  unfold add_maneuver, render_row, row_of. cbn [images text].
  rewrite map_app, concat_strings_app, present_truthy.
  destruct (truthy (iconUrl m)); cbn [map concat_strings foldr];
    rewrite ?image_literal, ?append_empty_r, ?append_assoc; reflexivity.
Qed.

Lemma list_sum_lookup {T} (f : T -> nat) (l : list T) (i : nat) (x : T) :
  l !! i = Some x -> f x <= list_sum (map f l).
Proof.
  revert i. induction l as [|y l IH]; intros i Hi; [discriminate |].
  change (list_sum (map f (y :: l))) with (f y + list_sum (map f l)).
  destruct i as [|i].
  - injection Hi as ->. lia.
  - specialize (IH i Hi). lia.
Qed.

Lemma leg_body_spec (fuel : nat) (r : Route) (i : nat) (leg : Leg)
    (html : string) :
  legs r !! i = Some leg -> enough_fuel r <= fuel ->
  leg_body fuel (legs r) i html = Done (add_leg leg html).
Proof.
  intros Hl Hf. unfold leg_body. rewrite Hl.
  pose proof (list_sum_lookup (fun l => length (maneuvers l)) _ _ _ Hl) as H1.
  pose proof (list_sum_lookup
    (fun l => list_sum (map (fun m => length (signs m)) (maneuvers l)))
    _ _ _ Hl) as H2.
  cbn beta in H1, H2. unfold enough_fuel in Hf.
  rewrite (for_loop_over_list (maneuvers leg) add_maneuver).
  - now rewrite drop_0, fold_add_maneuver.
  - intros j m h Hm. apply maneuver_body_spec; [exact Hm |].
    pose proof (list_sum_lookup (fun m => length (signs m)) _ _ _ Hm) as H3.
    cbn beta in H3. lia.
  - lia.
Qed.


Lemma narrative_table_rows (r : Route) :
  narrative_table r = map row_of (concat (map maneuvers (legs r))).
Proof.
  unfold narrative_table.
  induction (legs r) as [|g l IH]; [reflexivity |].
  cbn [flat_map map concat]. now rewrite map_app, IH.
Qed.

(** *** Row tags in the markup *)












End NarrativeFacts.

(** ** The theorems at work on the sample page *)

Example search_on_sample_page :
  search sample_translate sample_page
  = Returned tt
      {| errorMsg := {| children := []; hidden := true |};
         searchInput := {| value := ""; placeholder := "javascript" |};
         results := {| children := [Text "Searching..."]; hidden := false |};
         request := Some 0;
         xhrs := [sample_request] |}.
Proof. reflexivity. Qed.

(** The page recorded at [send()] is the page of that moment: the second
    half of [search] run on its own, before any region is set, records
    the page as it found it. *)
Example send_records_the_page_of_the_moment :
  (xhr_page_at_send <$> xhrs (final (search_from_term sample_page)) !! 0)
  = Some (Some ({| children := []; hidden := true |},
                {| children := []; hidden := true |})).
Proof. reflexivity. Qed.

Example load_on_sample_page :
  results (final (onRequestLoad sample_translate
                    (sample_loaded sample_documents)))
  = {| children :=
         [Element H2 None []
            [Element A (Some "https://developer.mozilla.org/docs/Array")
               [open_in_overlay] [Text "<b>Array</b> & more"]]];
       hidden := false |}.
Proof. reflexivity. Qed.

Lemma superseded_request_is_aborted_witness :
  let s1 := after_search sample_translate sample_page in
  let s2 := final (search sample_translate s1) in
  request s1 = Some 0
  /\ xhrs s1 !! 0 = Some sample_request
  /\ request s2 = Some 1
  /\ step sample_translate (NetLoad 0 sample_documents) s2 = s2.
Proof.
  cbn zeta. split; [reflexivity |]. split; [reflexivity |].
  destruct (superseded_request_is_aborted sample_translate
              (after_search sample_translate sample_page) 0 sample_request
              eq_refl eq_refl) as (H1 & _ & _ & H4).
  split; [exact H1 |].
  apply (H4 [] (NetLoad 0 sample_documents)). left. now exists sample_documents.
Defined.

Lemma regions_never_both_visible_witness :
  initial sample_page
  /\ In Submit [Submit; NetError 0 None; NetLoad 0 sample_documents]
  /\ both_visible
       (run sample_translate
          [Submit; NetError 0 None; NetLoad 0 sample_documents] sample_page)
     = false.
Proof.
  split; [split; reflexivity |]. split; [now left |].
  apply regions_never_both_visible; [split; reflexivity |].
  left. now left.
Defined.

Lemma error_state_has_two_causes_witness :
  request (sample_failed (Some "timeout")) = Some 0
  /\ xhrs (sample_failed (Some "timeout")) !! 0
     = Some (xhr_complete ResponseNull (Some "timeout") sample_request)
  /\ exists s', onRequestError sample_translate (sample_failed (Some "timeout"))
                = Returned tt s'
                /\ error_ui "timeout" s'.
Proof.
  split; [reflexivity |]. split; [reflexivity |].
  destruct (error_state_has_two_causes sample_translate
              (sample_failed (Some "timeout")) 0
              (xhr_complete ResponseNull (Some "timeout") sample_request)
              eq_refl eq_refl) as (Ha & _).
  apply (Ha "timeout"); [reflexivity | discriminate].
Defined.

Lemma load_renders_a_link_per_document_witness :
  request (sample_loaded two_documents) = Some 0
  /\ exists s',
       onRequestLoad sample_translate (sample_loaded two_documents)
       = Returned tt s'
       /\ length (children (results s')) = 2
       /\ (exists link,
             children (results s') !! 0 = Some (Element H2 None [] [link])
             /\ textContent link = "Array"
             /\ click sample_resolve link
                = [PreventDefault;
                   WindowOpen "https://developer.mozilla.org/docs/Array"
                     "overlay"])
       /\ (exists link,
             children (results s') !! 1 = Some (Element H2 None [] [link])
             /\ textContent link = "<b>Map</b>"
             /\ href_of link = "http://example.org"
             /\ click sample_resolve link
                = [PreventDefault; WindowOpen "http://example.org/" "overlay"])
       /\ hidden (results s') = false.
Proof.
  split; [reflexivity |].
  destruct (load_renders_a_link_per_document sample_translate sample_resolve
              (sample_loaded two_documents) 0
              (xhr_complete two_documents None sample_request)
              _ eq_refl eq_refl eq_refl ltac:(discriminate))
    as (s' & He & Hl & Hlinks & Hh).
  exists s'. split; [exact He |]. split; [exact Hl |].
  split.
  { destruct (Hlinks 0 _ eq_refl) as (link & H1 & H2 & _ & _ & H5).
    exists link. split; [exact H1 |]. split; [exact H2 | exact H5]. }
  split; [| exact Hh].
  destruct (Hlinks 1 _ eq_refl) as (link & H1 & H2 & H3 & _ & H5).
  exists link. split; [exact H1 |]. split; [exact H2 |].
  split; [exact H3 | exact H5].
Defined.

Lemma load_empty_list_shows_no_results_witness :
  request (sample_loaded (ResponseObject (DocumentsArray []))) = Some 0
  /\ exists s' p,
       onRequestLoad sample_translate
         (sample_loaded (ResponseObject (DocumentsArray [])))
       = Returned tt s'
       /\ children (results s') = [p]
       /\ textContent p = "No results".
Proof.
  split; [reflexivity |].
  destruct (load_empty_list_shows_no_results sample_translate
              (sample_loaded (ResponseObject (DocumentsArray []))) 0
              (xhr_complete (ResponseObject (DocumentsArray [])) None
                 sample_request)
              eq_refl eq_refl eq_refl)
    as (s' & p & He & _ & Hc & _ & Ht & _).
  exists s', p. repeat split; assumption.
Defined.

Lemma load_without_documents_throws_witness :
  request (sample_loaded (ResponseObject DocumentsUndefined)) = Some 0
  /\ exists s',
       onRequestLoad sample_translate
         (sample_loaded (ResponseObject DocumentsUndefined))
       = Threw s'
       /\ children (results s') = []
       /\ hidden (errorMsg s') = true.
Proof.
  split; [reflexivity |].
  destruct (load_without_documents_throws sample_translate
              (sample_loaded (ResponseObject DocumentsUndefined)) 0
              (xhr_complete (ResponseObject DocumentsUndefined) None
                 sample_request)
              DocumentsUndefined eq_refl eq_refl eq_refl
              (or_introl eq_refl))
    as (s' & He & Hc & _ & Hm).
  exists s'. split; [exact He |]. split; [exact Hc |].
  now rewrite Hm.
Defined.

Lemma title_is_text_not_markup_witness :
  request (sample_loaded sample_documents) = Some 0
  /\ exists link,
       children (results (final (onRequestLoad sample_translate
                                   (sample_loaded sample_documents)))) !! 0
       = Some (Element H2 None [] [link])
       /\ textContent link = "<b>Array</b> & more"
       /\ elements link = 1.
Proof.
  split; [reflexivity |].
  destruct (title_is_text_not_markup sample_translate
              (sample_loaded sample_documents) 0
              (xhr_complete sample_documents None sample_request)
              _ eq_refl eq_refl eq_refl 0 _ eq_refl)
    as (link & Hl & Ht & _ & He).
  exists link. repeat split; assumption.
Defined.

Module NarrativeExamples.

Import Narrative.

Example displayNarrative_on_sample_route :
  displayNarrative 10 {| route := Some sample_route |}
  = Done (Some
      ("<table><tbody>"
       +:+ "<tr><td><img src=" +:+ quote_mark +:+ "icon1.png" +:+ quote_mark
       +:+ ">  " +:+ "<img src=" +:+ quote_mark +:+ "sign1.png"
       +:+ quote_mark +:+ ">  "
       +:+ "</td><td>Start out going north.</td></tr>"
       +:+ "<tr><td></td><td>Turn <left>.</td></tr>"
       +:+ "<tr><td></td><td>Arrive.</td></tr>"
       +:+ "</tbody></table>")).
Proof. reflexivity. Qed.

Example displayNarrative_without_route :
  displayNarrative 0 {| route := None |} = Done None.
Proof. reflexivity. Qed.


End NarrativeExamples.

(** * Further properties of the controller *)

Section RequestObjects.

Variable translate : string -> string.

Lemma abort_current_cases (s : state) (h : nat) (x : xhr) :
  abort_current s !! h = Some x ->
  exists x0, xhrs s !! h = Some x0
             /\ ((request s <> Some h /\ x = x0)
                 \/ (request s = Some h /\ x = xhr_set_aborted x0)).
Proof.
  unfold abort_current. destruct (request s) as [c|] eqn:Hc.
  - destruct (decide (c = h)) as [-> | Hne].
    + rewrite list_lookup_alter_eq.
      destruct (xhrs s !! h) as [x0|]; [| discriminate].
      cbn. intros [= <-]. exists x0. split; [reflexivity |]. now right.
    + rewrite list_lookup_alter_ne by done. intros Hx. exists x.
      split; [exact Hx |]. left. split; [congruence | reflexivity].
  - intros Hx. exists x. split; [exact Hx |]. left. now split.
Qed.

Lemma built_by_search_aborted (x : xhr) :
  built_by_search x -> built_by_search (xhr_set_aborted x).
Proof. intros H. exact H. Qed.

Lemma built_by_search_complete (r : js_response) (e : option string)
    (x : xhr) :
  built_by_search x -> built_by_search (xhr_complete r e x).
Proof. intros H. exact H. Qed.

Lemma newest_snoc (l : list xhr) (x : xhr) :
  newest (l ++ [x]) = Some (length l).
Proof.
  unfold newest. rewrite length_app. cbn [length].
  now replace (length l + 1) with (S (length l)) by lia.
Qed.

Lemma wf_initial (s : state) : initial s -> wf s.
Proof.
  intros [Hr Hx]. split.
  - now rewrite Hr, Hx.
  - intros h x Hh. rewrite Hx in Hh. discriminate.
  - intros h x Hh. rewrite Hx in Hh. discriminate.
Qed.

Lemma wf_search (s : state) : wf s -> wf (after_search translate s).
Proof.
  intros W. split; cbn [after_search request xhrs].
  - now rewrite newest_snoc, abort_current_length.
  - intros h x Hx. apply lookup_app_Some in Hx as [Hx | [_ Hx]].
    + destruct (abort_current_cases s h x Hx) as (x0 & H0 & [[_ ->] | [_ ->]]).
      * exact (wf_built s W h x0 H0).
      * apply built_by_search_aborted. exact (wf_built s W h x0 H0).
    + apply list_lookup_singleton_Some in Hx as [_ <-].
      repeat split. now eexists.
  - intros h x Hx Hne. apply lookup_app_Some in Hx as [Hx | [Hge Hx]].
    + destruct (abort_current_cases s h x Hx) as (x0 & H0 & [[Hc ->] | [_ ->]]).
      * exact (wf_stale s W h x0 H0 Hc).
      * reflexivity.
    + apply list_lookup_singleton_Some in Hx as [Hz _].
      rewrite abort_current_length in Hge, Hz.
      exfalso. apply Hne. f_equal. lia.
Qed.

(** A completion stored in a request object, and handlers run on it. *)
Lemma wf_completed (s s' : state) (h : nat) (x : xhr) (r : js_response)
    (e : option string) :
  wf s -> xhrs s !! h = Some x ->
  request s' = request s ->
  xhrs s' = <[ h := xhr_complete r e x ]> (xhrs s) ->
  wf s'.
Proof.
  intros W Hx Hr' Hx'. pose proof (lookup_lt_Some _ _ _ Hx) as Hlt. split.
  - rewrite Hr', Hx'. unfold newest. rewrite length_insert.
    exact (wf_newest s W).
  - intros c z Hz. rewrite Hx' in Hz.
    destruct (decide (h = c)) as [<- | Hne].
    + rewrite list_lookup_insert_eq in Hz by done. injection Hz as <-.
      apply built_by_search_complete. exact (wf_built s W h x Hx).
    + rewrite list_lookup_insert_ne in Hz by done.
      exact (wf_built s W c z Hz).
  - intros c z Hz Hne. rewrite Hx' in Hz. rewrite Hr' in Hne.
    destruct (decide (h = c)) as [<- | Hne'].
    + rewrite list_lookup_insert_eq in Hz by done. injection Hz as <-.
      exact (wf_stale s W h x Hx Hne).
    + rewrite list_lookup_insert_ne in Hz by done.
      exact (wf_stale s W c z Hz Hne).
Qed.

Lemma wf_fire (e : event) (s : state) : wf s -> wf (fire translate e s).
Proof.
  intros W. destruct e as [v| |h body|h err]; cbn [fire].
  - destruct W as [W1 W2 W3]. split; assumption.
  - rewrite final_search. now apply wf_search.
  - destruct (xhrs s !! h) as [x|] eqn:Hx.
    + destruct (fire_load_frame translate s h x body Hx) as [Hr' Hx'].
      exact (wf_completed s _ h x body None W Hx Hr' Hx').
    + unfold fire_load. now rewrite Hx.
  - destruct (xhrs s !! h) as [x|] eqn:Hx.
    + destruct (fire_error_frame translate s h x err Hx) as [Hr' Hx'].
      exact (wf_completed s _ h x ResponseNull err W Hx Hr' Hx').
    + unfold fire_error. now rewrite Hx.
Qed.

Lemma wf_run_unguarded (tr : list event) (s : state) :
  wf s -> wf (run_unguarded translate tr s).
Proof.
  revert s. induction tr as [|e tr IH]; intros s W; [exact W |].
  change (run_unguarded translate (e :: tr) s)
    with (run_unguarded translate tr (fire translate e s)).
  apply IH. now apply wf_fire.
Qed.

Lemma wf_step (e : event) (s : state) : wf s -> wf (step translate e s).
Proof.
  intros W. unfold step. destruct (deliverable e s); [| exact W].
  now apply wf_fire.
Qed.

Lemma wf_run (tr : list event) (s : state) :
  wf s -> wf (run translate tr s).
Proof.
  revert s. induction tr as [|e tr IH]; intros s W; [exact W |].
  change (run translate (e :: tr) s)
    with (run translate tr (step translate e s)).
  apply IH. now apply wf_step.
Qed.

Lemma fire_length (e : event) (s : state) :
  length (xhrs (fire translate e s))
  = length (xhrs s) + count_submits [e].
Proof.
  destruct e as [v| |h body|h err]; cbn [fire count_submits].
  - cbn. lia.
  - rewrite final_search. cbn [after_search xhrs].
    rewrite length_app, abort_current_length. reflexivity.
  - destruct (xhrs s !! h) as [x|] eqn:Hx.
    + destruct (fire_load_frame translate s h x body Hx) as [_ ->].
      rewrite length_insert. lia.
    + unfold fire_load. rewrite Hx. lia.
  - destruct (xhrs s !! h) as [x|] eqn:Hx.
    + destruct (fire_error_frame translate s h x err Hx) as [_ ->].
      rewrite length_insert. lia.
    + unfold fire_error. rewrite Hx. lia.
Qed.

Lemma step_length (e : event) (s : state) :
  length (xhrs (step translate e s))
  = length (xhrs s) + count_submits [e].
Proof.
  unfold step. destruct (deliverable e s) eqn:Hd; [apply fire_length |].
  destruct e; cbn in Hd |- *; try discriminate; lia.
Qed.

Lemma count_submits_cons (e : event) (tr : list event) :
  count_submits (e :: tr) = count_submits [e] + count_submits tr.
Proof. destruct e; reflexivity. Qed.

End RequestObjects.

Section RunsOfAnyOrder.

Variable translate : string -> string.

(** A run of the browser is a run of the events it delivered. *)
Lemma run_as_unguarded (tr : list event) (s : state) :
  exists tr', run translate tr s = run_unguarded translate tr' s
              /\ count_submits tr' = count_submits tr.
Proof.
  revert s. induction tr as [|e tr IH]; intros s.
  - now exists [].
  - change (run translate (e :: tr) s)
      with (run translate tr (step translate e s)).
    destruct (IH (step translate e s)) as (tr' & Hrun & Hc).
    unfold step in *. destruct (deliverable e s) eqn:Hd.
    + exists (e :: tr'). split; [exact Hrun |].
      now rewrite (count_submits_cons e tr'), (count_submits_cons e tr), Hc.
    + exists tr'. split; [exact Hrun |].
      rewrite Hc. destruct e; cbn in Hd; try discriminate; reflexivity.
Qed.

Lemma run_unguarded_length (tr : list event) (s : state) :
  length (xhrs (run_unguarded translate tr s))
  = length (xhrs s) + count_submits tr.
Proof.
  revert s. induction tr as [|e tr IH]; intros s; [cbn; lia |].
  change (run_unguarded translate (e :: tr) s)
    with (run_unguarded translate tr (fire translate e s)).
  rewrite IH, fire_length, (count_submits_cons e tr). lia.
Qed.

(** X1: every call of [search] creates exactly one request object and
    nothing else creates or removes one: after any sequence of events,
    delivered by the rule of the browser or in any other order, the
    number of request objects has grown by the number of submits. *)
Theorem one_request_object_per_search (tr : list event) (s : state) :
  length (xhrs (run_unguarded translate tr s))
  = length (xhrs s) + count_submits tr
  /\ length (xhrs (run translate tr s))
     = length (xhrs s) + count_submits tr.
Proof.
  split; [apply run_unguarded_length |].
  destruct (run_as_unguarded tr s) as (tr' & -> & <-).
  apply run_unguarded_length.
Qed.

Lemma run_unguarded_request (tr : list event) (s0 : state) :
  initial s0 ->
  request (run_unguarded translate tr s0)
  = match count_submits tr with
    | 0 => None
    | S n => Some n
    end.
Proof.
  intros Hinit.
  pose proof (wf_run_unguarded translate tr s0 (wf_initial s0 Hinit)) as W.
  rewrite (wf_newest _ W). unfold newest.
  rewrite run_unguarded_length. destruct Hinit as [_ ->]. reflexivity.
Qed.

(** X2: [request] always refers to the request object of the latest
    call of [search]; it is [null] only as long as [search] has not been
    called.  No handler changes it. *)
Theorem request_is_the_latest_search (tr : list event) (s0 : state) :
  initial s0 ->
  request (run_unguarded translate tr s0)
  = match count_submits tr with
    | 0 => None
    | S n => Some n
    end.
Proof.
  intros [Hr Hx].
  pose proof (wf_run_unguarded translate tr s0
                (wf_initial s0 (conj Hr Hx))) as W.
  rewrite (wf_newest _ W). unfold newest.
  now rewrite run_unguarded_length, Hx.
Qed.

(** X3: at most one request is left running: whatever the order of the
    events, a request object on which [abort()] has not been called is
    the current one. *)
Theorem only_the_current_request_is_not_aborted (tr : list event)
    (s0 : state) (h : nat) (x : xhr) :
  initial s0 ->
  xhrs (run_unguarded translate tr s0) !! h = Some x ->
  xhr_aborted x = false ->
  request (run_unguarded translate tr s0) = Some h.
Proof.
  intros Hinit Hx Hna.
  pose proof (wf_run_unguarded translate tr s0 (wf_initial s0 Hinit)) as W.
  destruct (decide (request (run_unguarded translate tr s0) = Some h))
    as [Hc | Hc]; [exact Hc |].
  rewrite (wf_stale _ W h x Hx Hc) in Hna. discriminate.
Qed.

(** X4: every request object that exists was set up by [search] and
    stays so: a system request, opened asynchronously with [get] on the
    search endpoint followed by some term, expecting json, with
    [onRequestError] as its one error listener and [onRequestLoad] as its
    one load listener, and sent. *)
Theorem every_request_is_built_by_search (tr : list event) (s0 : state)
    (h : nat) (x : xhr) :
  initial s0 ->
  xhrs (run_unguarded translate tr s0) !! h = Some x ->
  xhr_mozSystem x = true
  /\ (exists term,
        xhr_open x
        = Some ("get", "https://developer.mozilla.org/search.json?q=" +:+ term,
                true))
  /\ xhr_responseType x = "json"
  /\ xhr_onerror x = [OnRequestError]
  /\ xhr_onload x = [OnRequestLoad]
  /\ xhr_sent x = true.
Proof.
  intros Hinit Hx.
  pose proof (wf_run_unguarded translate tr s0 (wf_initial s0 Hinit)) as W.
  exact (wf_built _ W h x Hx).
Qed.

Lemma count_submits_pos (tr : list event) :
  In Submit tr -> 0 < count_submits tr.
Proof.
  induction tr as [|e tr IH]; [intros [] |].
  intros [-> | Hin]; [cbn; lia |].
  rewrite (count_submits_cons e tr). specialize (IH Hin). lia.
Qed.

(** X5: once [search] has been called, [request] is not [null] when a
    handler runs: it holds the handle of an existing request object, so
    reading [request.error] or [request.response] does not fail, and
    [onRequestError] returns normally. *)
Theorem handlers_find_the_request (tr : list event) (s0 : state) :
  initial s0 -> In Submit tr ->
  let s := run_unguarded translate tr s0 in
  (exists h x, request s = Some h /\ xhrs s !! h = Some x
               /\ the_request s = Returned (h, x) s)
  /\ (exists s', onRequestError translate s = Returned tt s').
Proof.
  intros Hinit Hin. cbn zeta.
  pose proof (run_unguarded_request tr s0 Hinit) as Hr.
  pose proof (count_submits_pos tr Hin) as Hpos.
  destruct (count_submits tr) as [|n] eqn:Hc; [lia |].
  assert (Hlt : n < length (xhrs (run_unguarded translate tr s0))).
  { rewrite run_unguarded_length, Hc. lia. }
  destruct (lookup_lt_is_Some_2 _ _ Hlt) as [x Hx].
  set (s := run_unguarded translate tr s0) in *.
  split.
  - exists n, x. split; [exact Hr |]. split; [exact Hx |].
    exact (the_request_ok s n x Hr Hx).
  - eexists. apply (onRequestError_spec translate s n x Hr Hx).
Qed.

End RunsOfAnyOrder.

Section SearchThenCompletion.

Variable translate : string -> string.

Lemma after_search_new (s : state) :
  xhrs (after_search translate s) !! length (xhrs s)
  = Some (new_request translate s).
Proof.
  cbn [after_search xhrs]. apply list_lookup_middle.
  now rewrite abort_current_length.
Qed.

(** The state a handler finds when the request of the latest search
    completes. *)
Lemma completed_after_search (s : state) (r : js_response)
    (e : option string) :
  let x := xhr_complete r e
             (new_request translate s) in
  let s1 := with_xhrs (fun l => <[ length (xhrs s) := x ]> l)
              (after_search translate s) in
  request s1 = Some (length (xhrs s))
  /\ xhrs s1 !! length (xhrs s) = Some x.
Proof.
  cbn zeta. split; [reflexivity |].
  cbn [with_xhrs xhrs]. apply list_lookup_insert_eq.
  exact (lookup_lt_Some _ _ _ (after_search_new s)).
Qed.

Lemma step_load_after_search (s : state) (body : js_response) :
  step translate (NetLoad (length (xhrs s)) body) (step translate Submit s)
  = final (onRequestLoad translate
      (with_xhrs
         (fun l => <[ length (xhrs s) :=
            xhr_complete body None
              (new_request translate s) ]> l)
         (after_search translate s))).
Proof.
  unfold step at 2. cbn [deliverable fire]. rewrite final_search.
  unfold step. cbn [deliverable]. rewrite after_search_new.
  cbn [pending new_request sent_request xhr_sent xhr_aborted xhr_done andb negb fire].
  unfold fire_load. rewrite after_search_new. reflexivity.
Qed.

Lemma step_error_after_search (s : state) (err : option string) :
  step translate (NetError (length (xhrs s)) err) (step translate Submit s)
  = final (onRequestError translate
      (with_xhrs
         (fun l => <[ length (xhrs s) :=
            xhr_complete ResponseNull err
              (new_request translate s) ]> l)
         (after_search translate s))).
Proof.
  unfold step at 2. cbn [deliverable fire]. rewrite final_search.
  unfold step. cbn [deliverable]. rewrite after_search_new.
  cbn [pending new_request sent_request xhr_sent xhr_aborted xhr_done andb negb fire].
  unfold fire_error. rewrite after_search_new. reflexivity.
Qed.

Lemma textContent_result_heading (doc : document) :
  textContent (result_heading doc) = title doc.
Proof.
  unfold result_heading. cbn [textContent].
  fold (textContent (result_link doc)). unfold result_link.
  now rewrite textContent_text_children, append_empty_r.
Qed.

Lemma region_text_headings (docs : list document) (b : bool) :
  region_text {| children := map result_heading docs; hidden := b |}
  = titles docs.
Proof.
  unfold region_text, titles. cbn [children].
  induction docs as [|d docs IH]; [reflexivity |].
  cbn [map foldr]. now rewrite IH, textContent_result_heading.
Qed.

(** X6: a search whose request loads a body with a [documents] array
    ends on the results: the results region is visible and the error
    region hidden, the loading text is gone, and the text on the page is
    the titles of the documents one after the other, or the no-results
    message when there is none; the region has one child per document
    (one for the message). *)
Theorem search_then_load_shows_titles (s : state) (docs : list document) :
  let h := length (xhrs s) in
  let s2 := step translate
              (NetLoad h (ResponseObject (DocumentsArray docs)))
              (step translate Submit s) in
  hidden (results s2) = false
  /\ hidden (errorMsg s2) = true
  /\ length (children (results s2)) = Nat.max 1 (length docs)
  /\ region_text (results s2)
     = (if Nat.eqb (length docs) 0 then translate "search_no_results"
        else titles docs)
  /\ request s2 = Some h.
Proof.
  cbn zeta. rewrite step_load_after_search.
  destruct (completed_after_search s (ResponseObject (DocumentsArray docs))
              None) as [Hr Hx].
  destruct docs as [|d docs].
  - rewrite (onRequestLoad_empty translate _ _ _ Hr Hx eq_refl).
    cbn [final shown_results results errorMsg hidden children length
         Nat.eqb request with_xhrs after_search set_hidden].
    repeat split. unfold region_text. cbn [children foldr].
    now rewrite textContent_text_children, append_empty_r.
  - rewrite (onRequestLoad_documents translate _ _ _ d docs Hr Hx eq_refl).
    cbn [final shown_results results errorMsg hidden children
         request with_xhrs after_search set_hidden].
    split; [reflexivity |]. split; [reflexivity |].
    split; [rewrite length_map; cbn [length]; lia |].
    split; [| reflexivity].
    cbn [length Nat.eqb]. apply region_text_headings.
Qed.

(** X7: a search whose request fails ends on the error: the error region
    is visible with the error the failure reported, or with the generic
    message when it reported none; the results region is hidden and still
    holds the loading text. *)
Theorem search_then_error_shows_message (s : state) (err : option string) :
  let h := length (xhrs s) in
  let s2 := step translate (NetError h err) (step translate Submit s) in
  error_ui (if truthy err then default "" err
            else translate "searching_error") s2
  /\ children (results s2) = text_children (translate "searching")
  /\ request s2 = Some h.
Proof.
  cbn zeta. rewrite step_error_after_search.
  destruct (completed_after_search s ResponseNull err) as [Hr Hx].
  rewrite (onRequestError_spec translate _ _ _ Hr Hx).
  cbn [final xhr_complete xhr_error].
  split; [apply error_ui_shown |]. split; reflexivity.
Qed.

(** X8: a search whose request loads an object without a [documents]
    array ends on a blank page: the exception leaves the results region
    visible and empty (the loading text is gone) and the error region
    hidden. *)
Theorem search_then_malformed_body_shows_nothing (s : state)
    (d : js_documents) :
  d = DocumentsUndefined \/ d = DocumentsNull ->
  let h := length (xhrs s) in
  let s2 := step translate (NetLoad h (ResponseObject d))
              (step translate Submit s) in
  children (results s2) = []
  /\ region_text (results s2) = ""
  /\ hidden (results s2) = false
  /\ hidden (errorMsg s2) = true.
Proof.
  intros Hd. cbn zeta. rewrite step_load_after_search.
  destruct (completed_after_search s (ResponseObject d) None) as [Hr Hx].
  rewrite (onRequestLoad_no_array translate _ _ _ d Hr Hx eq_refl Hd).
  repeat split.
Qed.

(** X9: running a handler a second time changes nothing: a repeated load
    event renders the same results again and never adds to them, a
    repeated error shows the same message. *)
Theorem handlers_are_idempotent (s : state) :
  final (onRequestLoad translate (final (onRequestLoad translate s)))
  = final (onRequestLoad translate s)
  /\ final (onRequestError translate (final (onRequestError translate s)))
     = final (onRequestError translate s).
Proof.
  destruct (request s) as [h|] eqn:Hr.
  2:{ assert (Hl : onRequestLoad translate s = Threw s).
      { unfold onRequestLoad, bind, the_request. now rewrite Hr. }
      assert (He : onRequestError translate s = Threw s).
      { unfold onRequestError, bind, the_request. now rewrite Hr. }
      rewrite Hl, He. cbn [final]. now rewrite Hl, He. }
  destruct (xhrs s !! h) as [x|] eqn:Hx.
  2:{ assert (Hl : onRequestLoad translate s = Threw s).
      { unfold onRequestLoad, bind, the_request. now rewrite Hr, Hx. }
      assert (He : onRequestError translate s = Threw s).
      { unfold onRequestError, bind, the_request. now rewrite Hr, Hx. }
      rewrite Hl, He. cbn [final]. now rewrite Hl, He. }
  split.
  - destruct (xhr_response x) as [|[| |[|d docs]]] eqn:Hresp.
    + rewrite (onRequestLoad_null translate s h x Hr Hx Hresp). cbn [final].
      now rewrite (onRequestLoad_null translate
        (shown_error (translate "searching_error") s) h x Hr Hx Hresp).
    + rewrite (onRequestLoad_no_array translate s h x _ Hr Hx Hresp)
        by now left.
      cbn [final].
      now rewrite (onRequestLoad_no_array translate
        (with_results (set_children "") s) h x _ Hr Hx Hresp)
        by now left.
    + rewrite (onRequestLoad_no_array translate s h x _ Hr Hx Hresp)
        by now right.
      cbn [final].
      now rewrite (onRequestLoad_no_array translate
        (with_results (set_children "") s) h x _ Hr Hx Hresp)
        by now right.
    + rewrite (onRequestLoad_empty translate s h x Hr Hx Hresp). cbn [final].
      now rewrite (onRequestLoad_empty translate (shown_results _ s) h x Hr Hx
                   Hresp).
    + rewrite (onRequestLoad_documents translate s h x d docs Hr Hx Hresp).
      cbn [final].
      now rewrite (onRequestLoad_documents translate (shown_results _ s) h x d
                   docs Hr Hx Hresp).
  - rewrite (onRequestError_spec translate s h x Hr Hx). cbn [final].
    now rewrite (onRequestError_spec translate (shown_error _ s) h x Hr Hx).
Qed.

(** X10: [search] leaves the search field as it is and touches no
    request object but the current one, on which it changes nothing but
    the mark of [abort()]. *)
Theorem search_touches_only_the_current_request (s : state) (h : nat)
    (x : xhr) :
  xhrs s !! h = Some x ->
  let s' := final (search translate s) in
  searchInput s' = searchInput s
  /\ (request s <> Some h -> xhrs s' !! h = Some x)
  /\ (request s = Some h -> xhrs s' !! h = Some (xhr_set_aborted x)).
Proof.
  intros Hx. cbn zeta. rewrite final_search.
  split; [reflexivity |]. cbn [after_search xhrs].
  pose proof (lookup_lt_Some _ _ _ Hx) as Hlt.
  rewrite lookup_app_l by now rewrite abort_current_length.
  unfold abort_current. split.
  - intros Hne. destruct (request s) as [c|]; [| exact Hx].
    rewrite list_lookup_alter_ne by congruence. exact Hx.
  - intros ->. now rewrite list_lookup_alter_eq, Hx.
Qed.

End SearchThenCompletion.

(** * Further properties of the route narrative *)

Module NarrativeExtras.

Import Narrative.

Lemma displayNarrative_markup (fuel : nat) (r : Route) :
  enough_fuel r <= fuel ->
  displayNarrative fuel {| route := Some r |}
  = Done (Some (render_table (narrative_table r))).
Proof.
  intros Hf. unfold displayNarrative. cbn [route]. cbn zeta.
  rewrite (NarrativeFacts.for_loop_over_list (legs r) add_leg).
  - rewrite drop_0, NarrativeFacts.fold_add_leg.
    unfold render_table, narrative_table. now rewrite !append_assoc.
  - intros i leg h Hl. now apply NarrativeFacts.leg_body_spec.
  - unfold enough_fuel in Hf. lia.
Qed.

Lemma narrative_table_flat (r : Route) :
  narrative_table r = map row_of (flat_maneuvers r).
Proof. apply NarrativeFacts.narrative_table_rows. Qed.

(** X11: the markup depends on the maneuvers and their order only: two
    routes that split the same sequence of maneuvers into legs in
    different ways are rendered alike. *)
Theorem leg_boundaries_leave_no_trace (fuel : nat) (r1 r2 : Route) :
  enough_fuel r1 <= fuel -> enough_fuel r2 <= fuel ->
  concat (map maneuvers (legs r1)) = concat (map maneuvers (legs r2)) ->
  displayNarrative fuel {| route := Some r1 |}
  = displayNarrative fuel {| route := Some r2 |}.
Proof.
  intros H1 H2 Heq.
  rewrite (displayNarrative_markup fuel r1 H1),
    (displayNarrative_markup fuel r2 H2), !narrative_table_flat.
  unfold flat_maneuvers. now rewrite Heq.
Qed.

Lemma list_sum_map_le {T} (f g : T -> nat) (l : list T) :
  (forall x, f x <= g x) -> list_sum (map f l) <= list_sum (map g l).
Proof.
  intros Hfg. induction l as [|x l IH]; [reflexivity |].
  change (f x + list_sum (map f l) <= g x + list_sum (map g l)).
  specialize (Hfg x). lia.
Qed.

Lemma enough_fuel_clean (r : Route) :
  enough_fuel (clean_route r) <= enough_fuel r.
Proof.
  unfold enough_fuel, clean_route. cbn [legs].
  rewrite length_map, !map_map.
  assert (H1 : list_sum (map (fun l => length (maneuvers (clean_leg l)))
                           (legs r))
               <= list_sum (map (fun l => length (maneuvers l)) (legs r))).
  { apply list_sum_map_le. intros l. cbn. now rewrite length_map. }
  assert (H2 : list_sum (map (fun l => list_sum
                   (map (fun m => length (signs m))
                      (maneuvers (clean_leg l)))) (legs r))
               <= list_sum (map (fun l => list_sum
                   (map (fun m => length (signs m)) (maneuvers l)))
                   (legs r))).
  { apply list_sum_map_le. intros l. cbn [clean_leg maneuvers].
    rewrite map_map. apply list_sum_map_le. intros m.
    cbn [clean_maneuver signs]. apply List.filter_length_le. }
  lia.
Qed.

Lemma present_clean_icon (m : Maneuver) :
  present (iconUrl (clean_maneuver m)) = present (iconUrl m).
Proof.
  cbn [clean_maneuver iconUrl]. rewrite !NarrativeFacts.present_truthy.
  destruct (truthy (iconUrl m)) eqn:Ht; [now rewrite Ht | reflexivity].
Qed.

Lemma present_clean_signs (l : list (option Sign)) :
  flat_map (fun s => present (s ≫= url)) (List.filter sign_truthy l)
  = flat_map (fun s => present (s ≫= url)) l.
Proof.
  induction l as [|sg l IH]; [reflexivity |].
  cbn [List.filter flat_map].
  destruct (sign_truthy sg) eqn:Ht.
  - cbn [flat_map]. now rewrite IH.
  - rewrite IH, NarrativeFacts.present_truthy.
    destruct sg as [sg|]; cbn [mbind option_bind sign_truthy truthy] in *.
    + now rewrite Ht.
    + reflexivity.
Qed.

Lemma row_of_clean (m : Maneuver) : row_of (clean_maneuver m) = row_of m.
Proof.
  unfold row_of. rewrite present_clean_icon.
  cbn [clean_maneuver signs narrative]. now rewrite present_clean_signs.
Qed.

Lemma narrative_table_clean (r : Route) :
  narrative_table (clean_route r) = narrative_table r.
Proof.
  unfold narrative_table, clean_route. cbn [legs].
  induction (legs r) as [|g l IH]; [reflexivity |].
  cbn [map flat_map clean_leg maneuvers]. rewrite IH, map_map.
  f_equal. apply map_ext. intros m. apply row_of_clean.
Qed.

(** X12: the entries the loops skip leave no trace: an icon url that is
    the empty string counts as no icon, and a sign that is null, has no
    url or has the empty url adds nothing, so a route and the route
    without these entries are rendered alike. *)
Theorem skipped_entries_leave_no_trace (fuel : nat) (r : Route) :
  enough_fuel r <= fuel ->
  displayNarrative fuel {| route := Some (clean_route r) |}
  = displayNarrative fuel {| route := Some r |}.
Proof.
  intros Hf. rewrite (displayNarrative_markup fuel r Hf).
  rewrite displayNarrative_markup
    by (pose proof (enough_fuel_clean r); lia).
  now rewrite narrative_table_clean.
Qed.

(** X13: a route without maneuvers, with any number of empty legs or
    with no leg at all, is rendered as a table with no row. *)
Theorem route_without_maneuvers_gives_empty_table (fuel : nat) (r : Route) :
  Forall (fun l => maneuvers l = []) (legs r) ->
  length (legs r) < fuel ->
  displayNarrative fuel {| route := Some r |}
  = Done (Some "<table><tbody></tbody></table>").
Proof.
  intros Hall Hf.
  assert (Hm : list_sum (map (fun l => length (maneuvers l)) (legs r)) = 0
               /\ list_sum (map (fun l => list_sum
                    (map (fun m => length (signs m)) (maneuvers l)))
                    (legs r)) = 0
               /\ narrative_table r = []).
  { clear Hf. unfold narrative_table. induction Hall as [|g l Hg _ IH].
    - repeat split.
    - destruct IH as (I1 & I2 & I3).
      simpl. rewrite Hg, I3. simpl. repeat split; assumption. }
  destruct Hm as (M1 & M2 & M3).
  rewrite displayNarrative_markup by (unfold enough_fuel; lia).
  now rewrite M3.
Qed.

Lemma concat_strings_lookup (l : list string) (k : nat) (x : string) :
  l !! k = Some x ->
  concat_strings l
  = concat_strings (take k l) +:+ x +:+ concat_strings (drop (S k) l).
Proof.
  intros Hk. rewrite <- (take_drop_middle l k x Hk) at 1.
  rewrite NarrativeFacts.concat_strings_app. reflexivity.
Qed.

(** X14: the narrative of a maneuver goes into the markup as it is,
    between the tags of its cell and with nothing escaped, whatever
    characters it holds. *)
Theorem narrative_is_inserted_verbatim (fuel : nat) (r : Route) (k : nat)
    (m : Maneuver) :
  enough_fuel r <= fuel ->
  concat (map maneuvers (legs r)) !! k = Some m ->
  exists before after,
    displayNarrative fuel {| route := Some r |}
    = Done (Some (before +:+ "</td><td>" +:+ narrative m +:+ "</td></tr>"
                  +:+ after)).
Proof.
  intros Hf Hk. rewrite (displayNarrative_markup fuel r Hf).
  assert (Hrow : map render_row (narrative_table r) !! k
                 = Some (render_row (row_of m))).
  { rewrite narrative_table_flat, !list_lookup_fmap.
    unfold flat_maneuvers. now rewrite Hk. }
  unfold render_table. rewrite (concat_strings_lookup _ k _ Hrow).
  unfold render_row at 2. cbn [text row_of].
  eexists ("<table><tbody>"
           +:+ concat_strings (take k (map render_row (narrative_table r)))
           +:+ "<tr><td>"
           +:+ concat_strings (map image_tag (images (row_of m)))),
    (concat_strings (drop (S k) (map render_row (narrative_table r)))
     +:+ "</tbody></table>").
  now rewrite !append_assoc.
Qed.

End NarrativeExtras.

(** ** The further properties at work on the samples *)

Lemma request_is_the_latest_search_witness :
  initial sample_page
  /\ request (run_unguarded sample_translate
                [Submit; NetLoad 0 sample_documents; UserInput "css"; Submit]
                sample_page)
     = Some 1.
Proof.
  split; [split; reflexivity |].
  apply (request_is_the_latest_search sample_translate
           [Submit; NetLoad 0 sample_documents; UserInput "css"; Submit]
           sample_page).
  split; reflexivity.
Defined.

Lemma only_the_current_request_is_not_aborted_witness :
  let s := run_unguarded sample_translate
             [Submit; Submit; NetLoad 0 sample_documents] sample_page in
  initial sample_page
  /\ xhrs s !! 1 = Some sample_request
  /\ xhr_aborted sample_request = false
  /\ request s = Some 1.
Proof.
  cbn zeta. split; [split; reflexivity |].
  split; [reflexivity |]. split; [reflexivity |].
  apply (only_the_current_request_is_not_aborted sample_translate
           [Submit; Submit; NetLoad 0 sample_documents] sample_page 1
           sample_request); [split; reflexivity | reflexivity | reflexivity].
Defined.

Lemma every_request_is_built_by_search_witness :
  let s := run_unguarded sample_translate
             [Submit; NetError 0 (Some "timeout")] sample_page in
  initial sample_page
  /\ xhrs s !! 0
     = Some (xhr_complete ResponseNull (Some "timeout") sample_request)
  /\ xhr_onload (xhr_complete ResponseNull (Some "timeout") sample_request)
     = [OnRequestLoad].
Proof.
  cbn zeta. split; [split; reflexivity |]. split; [reflexivity |].
  destruct (every_request_is_built_by_search sample_translate
              [Submit; NetError 0 (Some "timeout")] sample_page 0
              (xhr_complete ResponseNull (Some "timeout") sample_request)
              (conj eq_refl eq_refl) eq_refl)
    as (_ & _ & _ & _ & Hl & _).
  exact Hl.
Defined.

Lemma handlers_find_the_request_witness :
  initial sample_page
  /\ In Submit [UserInput "css"; Submit]
  /\ exists s',
       onRequestError sample_translate
         (run_unguarded sample_translate [UserInput "css"; Submit] sample_page)
       = Returned tt s'.
Proof.
  split; [split; reflexivity |]. split; [right; now left |].
  destruct (handlers_find_the_request sample_translate
              [UserInput "css"; Submit] sample_page
              (conj eq_refl eq_refl) (or_intror (or_introl eq_refl)))
    as [_ He].
  exact He.
Defined.

Lemma search_then_malformed_body_shows_nothing_witness :
  let s2 := step sample_translate (NetLoad 0 (ResponseObject DocumentsNull))
              (step sample_translate Submit sample_page) in
  children (results s2) = [] /\ hidden (results s2) = false
  /\ hidden (errorMsg s2) = true.
Proof.
  cbn zeta.
  destruct (search_then_malformed_body_shows_nothing sample_translate
              sample_page DocumentsNull (or_intror eq_refl))
    as (H1 & _ & H3 & H4).
  split; [exact H1 |]. split; [exact H3 | exact H4].
Defined.

Lemma search_touches_only_the_current_request_witness :
  let s := after_search sample_translate sample_page in
  xhrs s !! 0 = Some sample_request
  /\ request s = Some 0
  /\ xhrs (final (search sample_translate s)) !! 0
     = Some (xhr_set_aborted sample_request).
Proof.
  cbn zeta. split; [reflexivity |]. split; [reflexivity |].
  destruct (search_touches_only_the_current_request sample_translate
              (after_search sample_translate sample_page) 0 sample_request
              eq_refl) as (_ & _ & H3).
  apply H3. reflexivity.
Defined.

Module NarrativeExtrasExamples.

Import Narrative.

Lemma leg_boundaries_leave_no_trace_witness :
  let one_leg := {| legs := [ {| maneuvers := flat_maneuvers sample_route |} ] |} in
  enough_fuel sample_route <= 10
  /\ enough_fuel one_leg <= 10
  /\ displayNarrative 10 {| route := Some sample_route |}
     = displayNarrative 10 {| route := Some one_leg |}.
Proof.
  cbn zeta.
  assert (H1 : enough_fuel sample_route <= 10) by (vm_compute; lia).
  assert (H2 : enough_fuel
                 {| legs := [ {| maneuvers := flat_maneuvers sample_route |} ] |}
               <= 10) by (vm_compute; lia).
  split; [exact H1 |]. split; [exact H2 |].
  apply (NarrativeExtras.leg_boundaries_leave_no_trace 10 sample_route _ H1 H2).
  reflexivity.
Defined.

Lemma skipped_entries_leave_no_trace_witness :
  enough_fuel sample_route <= 10
  /\ clean_route sample_route <> sample_route
  /\ displayNarrative 10 {| route := Some (clean_route sample_route) |}
     = displayNarrative 10 {| route := Some sample_route |}.
Proof.
  assert (H1 : enough_fuel sample_route <= 10) by (vm_compute; lia).
  split; [exact H1 |]. split; [vm_compute; discriminate |].
  exact (NarrativeExtras.skipped_entries_leave_no_trace 10 sample_route H1).
Defined.

Lemma route_without_maneuvers_gives_empty_table_witness :
  let r := {| legs := [ {| maneuvers := [] |}; {| maneuvers := [] |} ] |} in
  Forall (fun l => maneuvers l = []) (legs r)
  /\ displayNarrative 3 {| route := Some r |} = Done (Some empty_table).
Proof.
  cbn zeta.
  assert (Hall : Forall (fun l => maneuvers l = [])
                   [ {| maneuvers := [] |}; {| maneuvers := [] |} ]).
  { repeat constructor. }
  split; [exact Hall |].
  apply (NarrativeExtras.route_without_maneuvers_gives_empty_table 3
           {| legs := [ {| maneuvers := [] |}; {| maneuvers := [] |} ] |}
           Hall).
  cbn. lia.
Defined.

Lemma narrative_is_inserted_verbatim_witness :
  enough_fuel sample_route <= 10
  /\ exists before after,
       displayNarrative 10 {| route := Some sample_route |}
       = Done (Some (before +:+ "</td><td>" +:+ "Turn <left>."
                     +:+ "</td></tr>" +:+ after)).
Proof.
  assert (H1 : enough_fuel sample_route <= 10) by (vm_compute; lia).
  split; [exact H1 |].
  exact (NarrativeExtras.narrative_is_inserted_verbatim 10 sample_route 1
           {| iconUrl := None; signs := []; narrative := "Turn <left>." |}
           H1 eq_refl).
Defined.

End NarrativeExtrasExamples.
